(** * magentic.chatprompt: template binding, output typing and retrying
      invocation of a chat model

    A shallow embedding of [src/magentic/chatprompt.py].  Python objects
    that the module only passes around are values of the inductive type
    [value]; list objects live in a heap so that aliasing and [.copy()]
    are visible; the process-wide default chat model and the record of
    backend calls are fields of the [world] threaded through every
    operation.  Exceptions are the [Raise] branch of [result]. *)

From Stdlib Require Import ZArith Ascii String List Lia.
From stdpp Require Import base option list gmap strings pretty.

Set Warnings "-register-all".

Local Open Scope string_scope.
Local Open Scope list_scope.

(** ** Python values *)

(** A declared return annotation: a plain type, or a union of alternatives
    ([A | B | C], [typing.Union[A, B, C]]). *)
Inductive type_descriptor :=
| Plain (name : string)
| Union (members : list type_descriptor).

Inductive value :=
| VNone
| VInt (n : Z)
| VStr (s : string)
| VTuple (items : list value)
| VDict (items : list (string * value))
| VType (t : type_descriptor)
| VCallable (name : string).

(** ** Exceptions *)

(** The reasons for which [inspect.Signature.bind] raises [TypeError]. *)
Inductive bind_failure :=
| missing_required_argument (arg : string)
| too_many_positional_arguments
| multiple_values_for_argument (arg : string)
| positional_only_passed_as_keyword (arg : string)
| unexpected_keyword_argument (arg : string).

(** What a backend reports when its reply could not be coerced into any of
    the requested output types. *)
Record validation_failure := { failed_output : value; failure_text : string }.

Inductive exn :=
| TypeError (why : bind_failure)
| KeyError (key : string)
| IndexError
| ValueError (msg : string)
| ToolSchemaParseError (e : validation_failure)
| BackendError (tag : string)
| AttributeError (attr : string).

(** The error taxonomy of the specification. *)
Inductive error_category :=
| BindingError | TemplateError | RecoverableValidationError | FatalError
| ProgrammingError.

Definition category (e : exn) : error_category :=
  match e with
  | TypeError _ => BindingError
  | KeyError _ | IndexError | ValueError _ => TemplateError
  | ToolSchemaParseError _ => RecoverableValidationError
  | BackendError _ => FatalError
  | AttributeError _ => ProgrammingError
  end.

Inductive result (A : Type) :=
| Return (a : A)
| Raise (e : exn).
Arguments Return {A} a.
Arguments Raise {A} e.

Global Instance result_ret : MRet result := @Return.
Global Instance result_bind : MBind result := fun A B f r =>
  match r with
  | Return a => f a
  | Raise e => Raise e
  end.

(** ** Strings *)

Definition open_brace : ascii := "{"%char.
Definition close_brace : ascii := "}"%char.

(** [text.replace(old, new)] where [old] is a single character: every
    occurrence, left to right. *)
Fixpoint replace (old : ascii) (new : string) (text : string) : string :=
  match text with
  | EmptyString => EmptyString
  | String c rest =>
      if Ascii.eqb c old then new +:+ replace old new rest
      else String c (replace old new rest)
  end.

(** [escape_braces], chatprompt.py line 21. *)
Definition escape_braces (text : string) : string :=
  replace close_brace "}}" (replace open_brace "{{" text).

(** *** [str.format] with keyword arguments only

    The scanner follows Python's format string syntax: literal text, the
    escapes [{{] and [}}], and replacement fields
    [{field_name!conversion:format_spec}].  What a value does when it is
    converted or formatted is the object's own business and is kept in
    [ObjectProtocol]. *)

Class ObjectProtocol := {
  py_repr : value -> string;
  py_str : value -> string;
  py_ascii : value -> string;
  (** [format(obj, spec)] *)
  py_format : value -> string -> result string;
  (** the attribute and index accessors that follow the argument name
      ([.attr], [[key]]), applied left to right *)
  py_access : value -> string -> result value
}.

Record replacement_field := {
  field_name : string;
  conversion : option ascii;
  format_spec : string
}.

(** Scan a field name.  It ends at [}], [:] or [!]; inside [[...]] nothing
    is special.  The result is the name, the terminating character and the
    text after it. *)
Fixpoint scan_field_name (in_index : bool) (s : string)
  : result (string * ascii * string) :=
  match s with
  | EmptyString => Raise (ValueError "expected '}' before end of string")
  | String c rest =>
      if in_index then
        '(name, stop, rest') ← scan_field_name (negb (Ascii.eqb c "]")) rest;
        mret (String c name, stop, rest')
      else if Ascii.eqb c open_brace then
        Raise (ValueError "unexpected '{' in field name")
      else if Ascii.eqb c close_brace || Ascii.eqb c ":" || Ascii.eqb c "!" then
        mret (EmptyString, c, rest)
      else
        '(name, stop, rest') ← scan_field_name (Ascii.eqb c "[") rest;
        mret (String c name, stop, rest')
  end.

(** Scan a format spec up to the brace that closes the field; nested braces
    are counted. *)
Fixpoint scan_format_spec (bracecount : nat) (s : string)
  : result (string * string) :=
  match s with
  | EmptyString => Raise (ValueError "unmatched '{' in format spec")
  | String c rest =>
      if Ascii.eqb c open_brace then
        '(spec, rest') ← scan_format_spec (S bracecount) rest;
        mret (String c spec, rest')
      else if Ascii.eqb c close_brace then
        match bracecount with
        | O => mret (EmptyString, rest)
        | S n =>
            '(spec, rest') ← scan_format_spec n rest;
            mret (String c spec, rest')
        end
      else
        '(spec, rest') ← scan_format_spec bracecount rest;
        mret (String c spec, rest')
  end.

(** Parse one replacement field; [s] starts right after its opening brace. *)
Definition parse_field (s : string) : result (replacement_field * string) :=
  '(name, stop, rest) ← scan_field_name false s;
  if Ascii.eqb stop close_brace then
    mret ({| field_name := name; conversion := None; format_spec := "" |}, rest)
  else if Ascii.eqb stop ":" then
    '(spec, rest') ← scan_format_spec 0 rest;
    mret ({| field_name := name; conversion := None; format_spec := spec |}, rest')
  else
    match rest with
    | EmptyString =>
        Raise (ValueError "end of string while looking for conversion specifier")
    | String conv EmptyString =>
        Raise (ValueError "unmatched '{' in format spec")
    | String conv (String c rest') =>
        if Ascii.eqb c close_brace then
          mret ({| field_name := name; conversion := Some conv;
                   format_spec := "" |}, rest')
        else if Ascii.eqb c ":" then
          '(spec, rest'') ← scan_format_spec 0 rest';
          mret ({| field_name := name; conversion := Some conv;
                   format_spec := spec |}, rest'')
        else Raise (ValueError "expected ':' after conversion specifier")
    end.

(** An ordered dictionary with string keys, as Python's [dict]. *)
Abbreviation dict := (list (string * value)).

Fixpoint dict_get (key : string) (d : dict) : option value :=
  match d with
  | [] => None
  | (k, v) :: rest => if String.eqb k key then Some v else dict_get key rest
  end.

Definition dict_mem (key : string) (d : dict) : bool :=
  match dict_get key d with Some _ => true | None => false end.

(** [d[key] = v]: an existing key keeps its position. *)
Fixpoint dict_set (key : string) (v : value) (d : dict) : dict :=
  match d with
  | [] => [(key, v)]
  | (k, x) :: rest =>
      if String.eqb k key then (k, v) :: rest else (k, x) :: dict_set key v rest
  end.

(** [d.pop(key)] without the value: the entry is removed. *)
Fixpoint dict_remove (key : string) (d : dict) : dict :=
  match d with
  | [] => []
  | (k, x) :: rest =>
      if String.eqb k key then rest else (k, x) :: dict_remove key rest
  end.

Definition is_digit (c : ascii) : bool :=
  (48 <=? nat_of_ascii c)%nat && (nat_of_ascii c <=? 57)%nat.

Fixpoint all_digits (s : string) : bool :=
  match s with
  | EmptyString => true
  | String c rest => is_digit c && all_digits rest
  end.

(** The argument name of a field name is what precedes the first [.] or
    [[]. *)
Fixpoint split_arg_name (s : string) : string * string :=
  match s with
  | EmptyString => (EmptyString, EmptyString)
  | String c rest =>
      if Ascii.eqb c "." || Ascii.eqb c "[" then (EmptyString, s)
      else let '(arg, accessors) := split_arg_name rest in
           (String c arg, accessors)
  end.

Fixpoint has_open_brace (s : string) : bool :=
  match s with
  | EmptyString => false
  | String c rest => Ascii.eqb c open_brace || has_open_brace rest
  end.

Section Format.
Context {protocol : ObjectProtocol}.

(** The object a field name denotes.  No positional arguments are ever
    passed, so an empty or numeric argument name is out of range. *)
Definition get_field (name : string) (kwargs : dict) : result value :=
  let '(arg, accessors) := split_arg_name name in
  obj ← (if all_digits arg then Raise IndexError
         else match dict_get arg kwargs with
              | Some v => Return v
              | None => Raise (KeyError arg)
              end);
  match accessors with
  | EmptyString => Return obj
  | _ => py_access obj accessors
  end.

Definition do_conversion (conv : option ascii) (obj : value) : result value :=
  match conv with
  | None => Return obj
  | Some c =>
      if Ascii.eqb c "r" then Return (VStr (py_repr obj))
      else if Ascii.eqb c "s" then Return (VStr (py_str obj))
      else if Ascii.eqb c "a" then Return (VStr (py_ascii obj))
      else Raise (ValueError "Unknown conversion specifier")
  end.

(** Render one replacement field; [expand] formats a format spec that
    itself contains fields. *)
Definition output_markup (expand : string -> result string)
    (f : replacement_field) (kwargs : dict) : result string :=
  obj ← get_field (field_name f) kwargs;
  obj' ← do_conversion (conversion f) obj;
  spec ← (if has_open_brace (format_spec f) then expand (format_spec f)
          else Return (format_spec f));
  py_format obj' spec.

(** The markup loop.  Every step consumes at least one character, so a
    [fuel] of the length of [s] is never used up. *)
Fixpoint markup (expand : string -> result string) (kwargs : dict)
    (fuel : nat) (s : string) : result string :=
  match s with
  | EmptyString => Return EmptyString
  | String c rest =>
      match fuel with
      | O => Raise (ValueError "format string not consumed")
      | S fuel' =>
          if Ascii.eqb c open_brace then
            match rest with
            | EmptyString =>
                Raise (ValueError "Single '{' encountered in format string")
            | String c' rest' =>
                if Ascii.eqb c' open_brace then
                  out ← markup expand kwargs fuel' rest';
                  Return (String open_brace out)
                else
                  '(f, rest'') ← parse_field rest;
                  text ← output_markup expand f kwargs;
                  out ← markup expand kwargs fuel' rest'';
                  Return (text +:+ out)
            end
          else if Ascii.eqb c close_brace then
            match rest with
            | EmptyString =>
                Raise (ValueError "Single '}' encountered in format string")
            | String c' rest' =>
                if Ascii.eqb c' close_brace then
                  out ← markup expand kwargs fuel' rest';
                  Return (String close_brace out)
                else
                  Raise (ValueError "Single '}' encountered in format string")
            end
          else
            out ← markup expand kwargs fuel' rest;
            Return (String c out)
      end
  end.

Fixpoint build_string (recursion_depth : nat) (kwargs : dict) (s : string)
  : result string :=
  match recursion_depth with
  | O => Raise (ValueError "Max string recursion exceeded")
  | S depth =>
      markup (build_string depth kwargs) kwargs (String.length s) s
  end.

(** [template.format] called with the keyword arguments [kwargs]. *)
Definition str_format (template : string) (kwargs : dict) : result string :=
  build_string 2 kwargs template.

End Format.

(** ** Messages *)

Inductive role := system | user | assistant.

Inductive content :=
| Text (template : string)
| Typed (v : value).

Record Message := { msg_role : role; msg_content : content }.

(** Modelled from the spec: [Message.format] of magentic.chat_model.message,
    which is not among the sources.  A message template holds a role tag
    and a content template, text with named placeholders or a pre-typed
    content value.  Text is rendered by substituting the bound arguments;
    a pre-typed value is kept as it is. *)
Definition Message_format {protocol : ObjectProtocol} (m : Message) (kwargs : dict)
  : result Message :=
  match msg_content m with
  | Text template =>
      text ← str_format template kwargs;
      Return {| msg_role := msg_role m; msg_content := Text text |}
  | Typed v => Return m
  end.

(** ** [inspect]: parameters, signatures and argument binding *)

Inductive kind :=
| POSITIONAL_ONLY
| POSITIONAL_OR_KEYWORD
| VAR_POSITIONAL
| KEYWORD_ONLY
| VAR_KEYWORD.

Definition kind_rank (k : kind) : nat :=
  match k with
  | POSITIONAL_ONLY => 0
  | POSITIONAL_OR_KEYWORD => 1
  | VAR_POSITIONAL => 2
  | KEYWORD_ONLY => 3
  | VAR_KEYWORD => 4
  end.

Definition kind_eqb (a b : kind) : bool := Nat.eqb (kind_rank a) (kind_rank b).

(** [param_default = None] is [Parameter.empty]: the parameter has no
    default. *)
Record Param := {
  param_name : string;
  param_kind : kind;
  param_default : option value
}.

Record Signature := {
  parameters : list Param;
  return_annotation : type_descriptor
}.

Definition has_default (p : Param) : bool :=
  match param_default p with Some _ => true | None => false end.

(** The checks of [Signature.__init__]: kinds in order, no parameter
    without a default after a positional one with a default, no name
    twice.  [seen] are the names so far. *)
Fixpoint validate_parameters (top_kind : kind) (kind_defaults : bool)
    (seen : list string) (params : list Param) : result unit :=
  match params with
  | [] => Return tt
  | param :: rest =>
      let k := param_kind param in
      if (kind_rank k <? kind_rank top_kind)%nat then
        Raise (ValueError "wrong parameter order")
      else
        let kind_defaults :=
          if (kind_rank top_kind <? kind_rank k)%nat then false
          else kind_defaults in
        if (kind_eqb k POSITIONAL_ONLY || kind_eqb k POSITIONAL_OR_KEYWORD)
           && negb (has_default param) && kind_defaults then
          Raise (ValueError "non-default argument follows default argument")
        else
          let kind_defaults :=
            if (kind_eqb k POSITIONAL_ONLY || kind_eqb k POSITIONAL_OR_KEYWORD)
               && has_default param then true
            else kind_defaults in
          if existsb (String.eqb (param_name param)) seen then
            Raise (ValueError "duplicate parameter name")
          else
            validate_parameters k kind_defaults (param_name param :: seen) rest
  end.

Definition Signature_init (params : list Param)
    (annotation : type_descriptor) : result Signature :=
  _ ← validate_parameters POSITIONAL_ONLY false [] params;
  Return {| parameters := params; return_annotation := annotation |}.

(** The first loop of [Signature._bind]: positional arguments against the
    parameters in order.  The result is the arguments bound so far and the
    parameters left for the keyword loop ([parameters_ex] followed by the
    rest of the iterator). *)
Fixpoint bind_positional (params : list Param) (args : list value)
    (kwargs : dict) (arguments : dict)
  : result (dict * list Param) :=
  match args with
  | [] =>
      match params with
      | [] => Return (arguments, [])
      | param :: params' =>
          if kind_eqb (param_kind param) VAR_POSITIONAL then
            Return (arguments, params')
          else if dict_mem (param_name param) kwargs then
            if kind_eqb (param_kind param) POSITIONAL_ONLY then
              Raise (TypeError
                       (positional_only_passed_as_keyword (param_name param)))
            else Return (arguments, param :: params')
          else if kind_eqb (param_kind param) VAR_KEYWORD
                  || has_default param then
            Return (arguments, param :: params')
          else
            Raise (TypeError (missing_required_argument (param_name param)))
      end
  | arg_val :: args' =>
      match params with
      | [] => Raise (TypeError too_many_positional_arguments)
      | param :: params' =>
          if kind_eqb (param_kind param) VAR_KEYWORD
             || kind_eqb (param_kind param) KEYWORD_ONLY then
            Raise (TypeError too_many_positional_arguments)
          else if kind_eqb (param_kind param) VAR_POSITIONAL then
            Return (dict_set (param_name param) (VTuple (arg_val :: args'))
                      arguments, params')
          else if dict_mem (param_name param) kwargs
                  && negb (kind_eqb (param_kind param) POSITIONAL_ONLY) then
            Raise (TypeError (multiple_values_for_argument (param_name param)))
          else
            bind_positional params' args' kwargs
              (dict_set (param_name param) arg_val arguments)
      end
  end.

(** The second loop: the remaining parameters against the keyword
    arguments, which are popped as they are used. *)
Fixpoint bind_keywords (params : list Param) (kwargs : dict)
    (arguments : dict) (kwargs_param : option Param)
  : result (dict * dict * option Param) :=
  match params with
  | [] => Return (arguments, kwargs, kwargs_param)
  | param :: params' =>
      if kind_eqb (param_kind param) VAR_KEYWORD then
        bind_keywords params' kwargs arguments (Some param)
      else if kind_eqb (param_kind param) VAR_POSITIONAL then
        bind_keywords params' kwargs arguments kwargs_param
      else
        match dict_get (param_name param) kwargs with
        | None =>
            if has_default param then
              bind_keywords params' kwargs arguments kwargs_param
            else
              Raise (TypeError (missing_required_argument (param_name param)))
        | Some arg_val =>
            if kind_eqb (param_kind param) POSITIONAL_ONLY then
              Raise (TypeError
                       (positional_only_passed_as_keyword (param_name param)))
            else
              bind_keywords params' (dict_remove (param_name param) kwargs)
                (dict_set (param_name param) arg_val arguments) kwargs_param
        end
  end.

(** The [arguments] of [Signature.bind] applied to the positional arguments
    [args] and the keyword arguments [kwargs]. *)
Definition bind (sig : Signature) (args : list value) (kwargs : dict)
  : result dict :=
  '(arguments, params) ← bind_positional (parameters sig) args kwargs [];
  '(arguments, kwargs, kwargs_param) ← bind_keywords params kwargs arguments None;
  match kwargs with
  | [] => Return arguments
  | (k, _) :: _ =>
      match kwargs_param with
      | Some param => Return (dict_set (param_name param) (VDict kwargs) arguments)
      | None => Raise (TypeError (unexpected_keyword_argument k))
      end
  end.

(** [BoundArguments.apply_defaults]: the arguments in the order of the
    parameters, each missing one filled from its default. *)
Fixpoint apply_defaults (params : list Param) (arguments : dict) : dict :=
  match params with
  | [] => []
  | param :: rest =>
      match dict_get (param_name param) arguments with
      | Some v => (param_name param, v) :: apply_defaults rest arguments
      | None =>
          match param_default param with
          | Some v => (param_name param, v) :: apply_defaults rest arguments
          | None =>
              if kind_eqb (param_kind param) VAR_POSITIONAL then
                (param_name param, VTuple []) :: apply_defaults rest arguments
              else if kind_eqb (param_kind param) VAR_KEYWORD then
                (param_name param, VDict []) :: apply_defaults rest arguments
              else apply_defaults rest arguments
          end
      end
  end.

(** ** Return types *)

Fixpoint type_eqb (a b : type_descriptor) : bool :=
  match a, b with
  | Plain x, Plain y => String.eqb x y
  | Union xs, Union ys =>
      (fix all2 (xs ys : list type_descriptor) : bool :=
         match xs, ys with
         | [], [] => true
         | x :: xs', y :: ys' => type_eqb x y && all2 xs' ys'
         | _, _ => false
         end) xs ys
  | _, _ => false
  end.


(** Keep the first occurrence of every type, in order. *)
Fixpoint dedup (seen : list type_descriptor) (ts : list type_descriptor)
  : list type_descriptor :=
  match ts with
  | [] => []
  | t :: rest =>
      if existsb (type_eqb t) seen then dedup seen rest
      else t :: dedup (t :: seen) rest
  end.

(** Modelled from the spec: [split_union_type] of magentic.typing, which is
    not among the sources.  The members of a union are unpacked one level,
    without duplicates and in their order; a type that is not a union
    forms a one-element list. *)
Definition split_union_type (t : type_descriptor) : list type_descriptor :=
  match t with
  | Union members => dedup [] members
  | _ => [t]
  end.

(** ** Chat models and the world *)

Abbreviation loc := nat.

(** What a backend is called with. *)
Record request := {
  req_messages : list Message;
  req_functions : list value;
  req_output_types : list value;
  req_stop : option (list value)
}.

(** The reply of a backend, an assistant message. *)
Record Reply := { reply_content : value }.

(** One call received by a backend. *)
Record call_record := { called : nat; call_request : request }.

(** Modelled from the spec: [ChatModel] of magentic.chat_model.base and
    [RetryChatModel] of magentic.chat_model.retry_chat_model, which are not
    among the sources.  A backend takes the messages, the side-callables,
    the output variants and the stop strings and returns a reply or fails,
    in a blocking form [complete] and a suspending form [acomplete]; what
    it answers may depend on the calls made so far.  The retrying proxy
    wraps an underlying handle with a maximal number of retries. *)
Inductive ChatModel :=
| Backend (id : nat)
    (complete acomplete : list call_record -> request -> result Reply)
| RetryChatModel (chat_model : ChatModel) (max_retries : Z).

(** The policy by which the retrying proxy turns a validation failure into
    the corrective messages appended for the next attempt. *)
Class RetryPolicy := {
  make_retry_messages : validation_failure -> list Message
}.

(** A function object declared by the user with [def] or [async def]. *)
Record function := {
  fn_module : string;
  fn_name : string;
  fn_qualname : string;
  fn_doc : option string;
  fn_annotations : list (string * type_descriptor);
  (** [inspect.signature(func)] *)
  fn_parameters : list Param;
  fn_return_annotation : type_descriptor;
  (** [inspect.iscoroutinefunction(func)] *)
  fn_is_coroutine : bool
}.

(** The attributes [functools.update_wrapper] sets on the wrapper. *)
Record wrapper_attributes := {
  __module__ : string;
  __name__ : string;
  __qualname__ : string;
  __doc__ : option string;
  __annotations__ : list (string * type_descriptor);
  __wrapped__ : loc
}.

Inductive prompt_class := ChatPromptFunction | AsyncChatPromptFunction.

(** An instance of [BaseChatPromptFunction]; lists are held by
    reference. *)
Record BaseChatPromptFunction := {
  class_of : prompt_class;
  _name : string;
  _signature : Signature;
  _messages : list Message;
  _functions : loc;
  _stop : option loc;
  _max_retries : Z;
  _model : option ChatModel;
  _return_types : loc;
  wrapper : option wrapper_attributes
}.

Inductive object :=
| List (items : list value)
| Function (f : function)
| Prompt (p : BaseChatPromptFunction).

Record world := {
  heap : gmap loc object;
  (** what [get_chat_model()] returns, the process-wide default *)
  default_chat_model : ChatModel;
  (** every call a backend has received, oldest first *)
  calls : list call_record
}.

(** *** Computations over the world, which may raise *)

Definition M (A : Type) : Type := world -> result A * world.

Global Instance M_ret : MRet M := fun A a w => (Return a, w).
Global Instance M_bind : MBind M := fun A B f c w =>
  match c w with
  | (Return a, w') => f a w'
  | (Raise e, w') => (Raise e, w')
  end.

Definition lift {A} (r : result A) : M A := fun w => (r, w).

Definition set_heap (h : gmap loc object) (w : world) : world :=
  {| heap := h; default_chat_model := default_chat_model w; calls := calls w |}.

Definition alloc (o : object) : M loc := fun w =>
  let l := fresh (dom (heap w)) in
  (Return l, set_heap (<[l := o]> (heap w)) w).

Definition store (l : loc) (o : object) : M unit := fun w =>
  (Return tt, set_heap (<[l := o]> (heap w)) w).

(** The items of the list at [l]. *)
Definition read_list (l : loc) : M (list value) := fun w =>
  match heap w !! l with
  | Some (List items) => (Return items, w)
  | _ => (Raise (AttributeError "copy"), w)
  end.

Definition read_optional_list (l : option loc) : M (option (list value)) :=
  match l with
  | Some l => items ← read_list l; mret (Some items)
  | None => mret None
  end.

(** The prompt function [self] refers to. *)
Definition read_prompt (self : loc) : M BaseChatPromptFunction := fun w =>
  match heap w !! self with
  | Some (Prompt p) => (Return p, w)
  | _ => (Raise (AttributeError "_signature"), w)
  end.

Definition read_function (func : loc) : M function := fun w =>
  match heap w !! func with
  | Some (Function f) => (Return f, w)
  | _ => (Raise (AttributeError "__name__"), w)
  end.

(** Modelled from the spec: [get_chat_model] of magentic.backend, which is
    not among the sources.  It looks up the process-wide default backend at
    the time it is called. *)
Definition get_chat_model : M ChatModel := fun w =>
  (Return (default_chat_model w), w).


(** A backend receives a call: it answers from the calls so far and the
    request, and the call is recorded. *)
Definition invoke (id : nat)
    (answer : list call_record -> request -> result Reply) (req : request)
  : M Reply := fun w =>
  (answer (calls w) req,
   {| heap := heap w; default_chat_model := default_chat_model w;
      calls := calls w ++ [{| called := id; call_request := req |}] |}).

Definition with_messages (req : request) (messages : list Message) : request :=
  {| req_messages := messages; req_functions := req_functions req;
     req_output_types := req_output_types req; req_stop := req_stop req |}.

Section Calls.
Context {protocol : ObjectProtocol} {policy : RetryPolicy}.

(** Modelled from the spec: the retrying proxy issues the call; on a
    recoverable validation failure it reissues it, with the corrective
    messages appended, up to [retries] additional times; any other outcome,
    and the failure of the last attempt, is passed on. *)
Fixpoint retry_loop (call : request -> M Reply) (retries : nat)
    (req : request) : M Reply := fun w =>
  match call req w with
  | (Raise (ToolSchemaParseError e), w') =>
      match retries with
      | O => (Raise (ToolSchemaParseError e), w')
      | S n =>
          retry_loop call n
            (with_messages req (req_messages req ++ make_retry_messages e)) w'
      end
  | outcome => outcome
  end.

(** [model.complete(...)] when [suspending] is false and
    [await model.acomplete(...)] when it is true. *)
Fixpoint complete_with (suspending : bool) (model : ChatModel) (req : request)
  : M Reply :=
  match model with
  | Backend id complete acomplete =>
      invoke id (if suspending then acomplete else complete) req
  | RetryChatModel chat_model max_retries =>
      retry_loop (complete_with suspending chat_model) (Z.to_nat max_retries) req
  end.

Definition complete := complete_with false.
Definition acomplete := complete_with true.

(** *** [BaseChatPromptFunction] *)

(** [functions or []]: the caller's list when it is given and not empty,
    a new empty list otherwise. *)
Definition functions_or_empty (functions : option loc) : M loc :=
  match functions with
  | Some l =>
      items ← read_list l;
      match items with
      | [] => alloc (List [])
      | _ => mret l
      end
  | None => alloc (List [])
  end.

(** [__init__], chatprompt.py line 33. *)
Definition __init__ (cls : prompt_class) (name : string) (params : list Param)
    (return_type : type_descriptor) (messages : list Message)
    (functions : option loc) (stop : option loc) (max_retries : Z)
    (model : option ChatModel) : M loc :=
  sig ← lift (Signature_init params return_type);
  fs ← functions_or_empty functions;
  rts ← alloc (List (VType <$> split_union_type return_type));
  alloc (Prompt {| class_of := cls; _name := name; _signature := sig;
                   _messages := messages; _functions := fs; _stop := stop;
                   _max_retries := max_retries; _model := model;
                   _return_types := rts; wrapper := None |}).

(** The property [functions], line 57. *)
Definition functions (self : loc) : M loc :=
  this ← read_prompt self;
  items ← read_list (_functions this);
  alloc (List items).

(** [self._model or get_chat_model()] *)
Definition model_or_default (this : BaseChatPromptFunction) : M ChatModel :=
  match _model this with
  | Some m => mret m
  | None => get_chat_model
  end.

(** The property [model], line 61. *)
Definition model (self : loc) : M ChatModel :=
  this ← read_prompt self;
  if negb (_max_retries this =? 0)%Z then
    chat_model ← model_or_default this;
    mret (RetryChatModel chat_model (_max_retries this))
  else model_or_default this.

(** The property [return_types], line 70. *)
Definition return_types (self : loc) : M loc :=
  this ← read_prompt self;
  items ← read_list (_return_types this);
  alloc (List items).

(** The call of the template's method [format] with the entries of
    [arguments] as keywords, line 79.  Python binds the keywords to the
    parameters of the method, and the first of them, [self], is bound to
    the template already: a keyword of that name is refused with a
    [TypeError].  [Message_format] is what the method then does. *)
Definition format_with_keywords (message_template : Message)
    (arguments : dict) : result Message :=
  if dict_mem "self" arguments
  then Raise (TypeError (multiple_values_for_argument "self"))
  else Message_format message_template arguments.

(** The list comprehension of [format], lines 78 to 81. *)
Fixpoint format_messages (templates : list Message) (arguments : dict)
  : result (list Message) :=
  match templates with
  | [] => Return []
  | message_template :: rest =>
      m ← format_with_keywords message_template arguments;
      ms ← format_messages rest arguments;
      Return (m :: ms)
  end.

(** [format], line 74. *)
Definition format (self : loc) (args : list value) (kwargs : dict)
  : M (list Message) :=
  this ← read_prompt self;
  bound_args ← lift (bind (_signature this) args kwargs);
  lift (format_messages (_messages this)
          (apply_defaults (parameters (_signature this)) bound_args)).

(** [ChatPromptFunction.__call__], line 87.  The span of the logger is
    entered with the bound arguments and has no other effect here. *)
Definition ChatPromptFunction_call (self : loc) (args : list value)
    (kwargs : dict) : M value :=
  this ← read_prompt self;
  _ ← lift (bind (_signature this) args kwargs);
  chat_model ← model self;
  messages ← format self args kwargs;
  fs ← read_list (_functions this);
  output_types ← read_list (_return_types this);
  stop ← read_optional_list (_stop this);
  message ← complete chat_model
    {| req_messages := messages; req_functions := fs;
       req_output_types := output_types; req_stop := stop |};
  mret (reply_content message).

(** [AsyncChatPromptFunction.__call__], line 105, awaited to its end. *)
Definition AsyncChatPromptFunction_call (self : loc) (args : list value)
    (kwargs : dict) : M value :=
  this ← read_prompt self;
  _ ← lift (bind (_signature this) args kwargs);
  chat_model ← model self;
  messages ← format self args kwargs;
  fs ← read_list (_functions this);
  output_types ← read_list (_return_types this);
  stop ← read_optional_list (_stop this);
  message ← acomplete chat_model
    {| req_messages := messages; req_functions := fs;
       req_output_types := output_types; req_stop := stop |};
  mret (reply_content message).

(** Calling the object [self]: Python finds [__call__] in its class. *)
Definition call (self : loc) (args : list value) (kwargs : dict) : M value :=
  this ← read_prompt self;
  match class_of this with
  | ChatPromptFunction => ChatPromptFunction_call self args kwargs
  | AsyncChatPromptFunction => AsyncChatPromptFunction_call self args kwargs
  end.

(** *** The decorator *)

(** [functools.update_wrapper(wrapper, wrapped)] for a wrapped function
    that carries no attributes of its own beyond those assigned. *)
Definition update_wrapper (wrapper_loc wrapped : loc) : M loc :=
  this ← read_prompt wrapper_loc;
  f ← read_function wrapped;
  _ ← store wrapper_loc
        (Prompt {| class_of := class_of this; _name := _name this;
                   _signature := _signature this; _messages := _messages this;
                   _functions := _functions this; _stop := _stop this;
                   _max_retries := _max_retries this; _model := _model this;
                   _return_types := _return_types this;
                   wrapper := Some {| __module__ := fn_module f;
                                      __name__ := fn_name f;
                                      __qualname__ := fn_qualname f;
                                      __doc__ := fn_doc f;
                                      __annotations__ := fn_annotations f;
                                      __wrapped__ := wrapped |} |});
  mret wrapper_loc.

(** [chatprompt], line 136, with its options, applied to the function
    object at [func]: the body of the inner [decorator]. *)
Definition chatprompt (messages : list Message) (functions : option loc)
    (stop : option loc) (max_retries : Z) (model : option ChatModel)
    (func : loc) : M loc :=
  f ← read_function func;
  if fn_is_coroutine f then
    async_prompt_function ←
      __init__ AsyncChatPromptFunction (fn_name f) (fn_parameters f)
        (fn_return_annotation f) messages functions stop max_retries model;
    update_wrapper async_prompt_function func
  else
    prompt_function ←
      __init__ ChatPromptFunction (fn_name f) (fn_parameters f)
        (fn_return_annotation f) messages functions stop max_retries model;
    update_wrapper prompt_function func.

End Calls.

(** ** Vocabulary of the properties *)

(** A parameter that every call has to supply: no default, and neither
    [*args] nor [**kwargs]. *)
Definition required (p : Param) : bool :=
  negb (has_default p)
  && negb (kind_eqb (param_kind p) VAR_POSITIONAL)
  && negb (kind_eqb (param_kind p) VAR_KEYWORD).

Section Vocabulary.
Context {protocol : ObjectProtocol} {policy : RetryPolicy}.

(** The handle [model] resolves to in the world [w]. *)
Definition effective_model (this : BaseChatPromptFunction) (w : world)
  : ChatModel :=
  let underlying :=
    match _model this with Some m => m | None => default_chat_model w end in
  if negb (_max_retries this =? 0)%Z then
    RetryChatModel underlying (_max_retries this)
  else underlying.

(** What [format] returns, as a function of the prompt function and the
    call. *)
Definition rendered (this : BaseChatPromptFunction) (args : list value)
    (kwargs : dict) : result (list Message) :=
  bound_args ← bind (_signature this) args kwargs;
  format_messages (_messages this)
    (apply_defaults (parameters (_signature this)) bound_args).

(** A call of the prompt function [this], in terms of what [model] and
    [format] come to. *)
Definition run_call (suspending : bool) (this : BaseChatPromptFunction)
    (args : list value) (kwargs : dict) : M value := fun w =>
  (messages ← lift (rendered this args kwargs);
   fs ← read_list (_functions this);
   output_types ← read_list (_return_types this);
   stop ← read_optional_list (_stop this);
   message ← complete_with suspending (effective_model this w)
     {| req_messages := messages; req_functions := fs;
        req_output_types := output_types; req_stop := stop |};
   mret (reply_content message)) w.

(** One invocation after the other, whatever each of them returns. *)
Fixpoint call_all (self : loc) (invocations : list (list value * dict))
    (w : world) : world :=
  match invocations with
  | [] => w
  | (args, kwargs) :: rest => call_all self rest (call self args kwargs w).2
  end.

End Vocabulary.

(** The blocking and the suspending form of every backend behind [m] give
    the same answers. *)
Fixpoint modes_agree (m : ChatModel) : Prop :=
  match m with
  | Backend _ complete acomplete =>
      forall history req, acomplete history req = complete history req
  | RetryChatModel chat_model _ => modes_agree chat_model
  end.

(** The same prompt function as an instance of the class [cls]. *)
Definition with_class (cls : prompt_class) (p : BaseChatPromptFunction)
  : BaseChatPromptFunction :=
  {| class_of := cls; _name := _name p; _signature := _signature p;
     _messages := _messages p; _functions := _functions p; _stop := _stop p;
     _max_retries := _max_retries p; _model := _model p;
     _return_types := _return_types p; wrapper := wrapper p |}.

(** The call [r] was made with the side-callables [fs], the output types
    [rts] and the stop strings [stop]. *)
Definition carries (fs rts : list value) (stop : option (list value))
    (r : call_record) : Prop :=
  req_functions (call_request r) = fs
  /\ req_output_types (call_request r) = rts
  /\ req_stop (call_request r) = stop.

(** From [w] to [w'] nothing happened but backend calls, each of which
    satisfies [P]. *)
Definition only_calls (P : call_record -> Prop) (w w' : world) : Prop :=
  heap w' = heap w
  /\ default_chat_model w' = default_chat_model w
  /\ exists new, calls w' = calls w ++ new /\ Forall P new.

(** The call [r] carries the lists that the prompt function at [self]
    holds in the world [w]. *)
Definition sent_from (self : loc) (w : world) (r : call_record) : Prop :=
  exists this,
    heap w !! self = Some (Prompt this)
    /\ heap w !! _functions this = Some (List (req_functions (call_request r)))
    /\ heap w !! _return_types this
       = Some (List (req_output_types (call_request r))).




(** Any change of the list at [l] in place: [append], [clear], [sort],
    item assignment and deletion are instances. *)
Definition list_mutate (l : loc) (change : list value -> list value)
  : M unit :=
  items ← read_list l;
  store l (List (change items)).

(** The optional list argument of the constructor refers to a list. *)
Definition list_or_none (l : option loc) (w : world) : Prop :=
  match l with
  | None => True
  | Some l => exists items, heap w !! l = Some (List items)
  end.

(** The call [r] was made with the side-callables [fs] and the output
    types [rts]. *)
Definition configured (fs rts : list value) (r : call_record) : Prop :=
  req_functions (call_request r) = fs
  /\ req_output_types (call_request r) = rts.

(** From [w] to [w'] the heap has only gained objects; the default chat
    model and the record of calls are the same. *)
Definition grows (w w' : world) : Prop :=
  (forall l o, heap w !! l = Some o -> heap w' !! l = Some o)
  /\ default_chat_model w' = default_chat_model w
  /\ calls w' = calls w.

(** [b'] is [b] with [d] bound to [name]. *)
Definition with_default (name : string) (d : value) (b b' : dict) : Prop :=
  forall k, dict_get k b' = if String.eqb name k then Some d else dict_get k b.

(** A parameter that may be passed by keyword. *)
Definition keywordable (p : Param) : bool :=
  kind_eqb (param_kind p) POSITIONAL_OR_KEYWORD
  || kind_eqb (param_kind p) KEYWORD_ONLY.

(** A parameter that may be passed by position. *)
Definition positional (p : Param) : bool :=
  kind_eqb (param_kind p) POSITIONAL_ONLY
  || kind_eqb (param_kind p) POSITIONAL_OR_KEYWORD.

(** The arguments [format] renders with: bound, then completed with the
    defaults. *)
Definition bound_arguments (sig : Signature) (args : list value)
    (kwargs : dict) : result dict :=
  bound_args ← bind sig args kwargs;
  Return (apply_defaults (parameters sig) bound_args).

(** Whatever parameter in [params] is called [name] has the default [d]
    and may be passed by keyword. *)
Definition defaulted (name : string) (d : value) (params : list Param) : Prop :=
  Forall (fun q => param_name q = name ->
                   param_default q = Some d /\ keywordable q = true) params.

(** The number of braces, opening and closing, in a text. *)
Fixpoint count_braces (text : string) : nat :=
  match text with
  | EmptyString => 0
  | String c rest =>
      (if Ascii.eqb c open_brace || Ascii.eqb c close_brace then 1 else 0)
      + count_braces rest
  end.

(** No parameter of the list is of the kind [k]. *)
Definition without_kind (k : kind) (params : list Param) : Prop :=
  Forall (fun q => kind_eqb (param_kind q) k = false) params.

(** The stop strings a prompt function holds in the world [w]. *)
Definition stop_items (stop : option loc) (w : world)
  : option (list value) :=
  match stop with
  | Some l =>
      match heap w !! l with
      | Some (List items) => Some items
      | _ => None
      end
  | None => None
  end.

(** ** Sample objects

    Concrete objects on which the properties below are exercised. *)

(** Objects that print as themselves and take no format spec. *)
Definition plain_objects : ObjectProtocol := {|
  py_repr v := match v with VStr s => s | VInt n => pretty n | _ => "object" end;
  py_str v := match v with VStr s => s | VInt n => pretty n | _ => "object" end;
  py_ascii v := match v with VStr s => s | VInt n => pretty n | _ => "object" end;
  py_format v spec :=
    match spec with
    | EmptyString =>
        Return match v with VStr s => s | VInt n => pretty n | _ => "object" end
    | _ => Raise (ValueError "Invalid format specifier")
    end;
  py_access _ _ := Raise (AttributeError "attribute")
|}.

(** The retry policy that sends the failed output back, followed by what
    was wrong with it. *)
Definition echo_failure : RetryPolicy := {|
  make_retry_messages e :=
    [ {| msg_role := assistant; msg_content := Typed (failed_output e) |};
      {| msg_role := user; msg_content := Text (failure_text e) |} ]
|}.

Definition int : type_descriptor := Plain "int".

(** A backend that answers every call with the number of calls made
    before. *)
Definition counting_backend : ChatModel :=
  Backend 7
    (fun history _ => Return {| reply_content := VInt (Z.of_nat (length history)) |})
    (fun history _ => Return {| reply_content := VInt (Z.of_nat (length history)) |}).

(** A backend none of whose replies can be coerced. *)
Definition failing_backend : ChatModel :=
  Backend 8
    (fun _ _ => Raise (ToolSchemaParseError
                         {| failed_output := VStr "x"; failure_text := "not an int" |}))
    (fun _ _ => Raise (ToolSchemaParseError
                         {| failed_output := VStr "x"; failure_text := "not an int" |})).

(** [def f(a: int, b: int = 2) -> int] *)
Definition f_parameters : list Param :=
  [ {| param_name := "a"; param_kind := POSITIONAL_OR_KEYWORD;
       param_default := None |};
    {| param_name := "b"; param_kind := POSITIONAL_OR_KEYWORD;
       param_default := Some (VInt 2) |} ].

Definition f : function := {|
  fn_module := "__main__"; fn_name := "f"; fn_qualname := "f";
  fn_doc := Some "Add two numbers.";
  fn_annotations := [("a", int); ("b", int); ("return", int)];
  fn_parameters := f_parameters;
  fn_return_annotation := int;
  fn_is_coroutine := false
|}.

(** [def g(a: int, b: int) -> int], both parameters required *)
Definition g_parameters : list Param :=
  [ {| param_name := "a"; param_kind := POSITIONAL_OR_KEYWORD;
       param_default := None |};
    {| param_name := "b"; param_kind := POSITIONAL_OR_KEYWORD;
       param_default := None |} ].

Definition sample_messages : list Message :=
  [ {| msg_role := system; msg_content := Text "You add numbers." |};
    {| msg_role := user; msg_content := Text "What is {a} plus {b}?" |} ].

(** A prompt function whose lists are at the locations 1 and 2. *)
Definition sample_prompt (cls : prompt_class) (params : list Param)
    (max_retries : Z) (model : option ChatModel) : BaseChatPromptFunction := {|
  class_of := cls; _name := "f";
  _signature := {| parameters := params; return_annotation := int |};
  _messages := sample_messages;
  _functions := 1; _stop := None; _max_retries := max_retries;
  _model := model; _return_types := 2;
  wrapper := Some {| __module__ := "__main__"; __name__ := "f";
                     __qualname__ := "f"; __doc__ := Some "Add two numbers.";
                     __annotations__ := [("a", int); ("b", int); ("return", int)];
                     __wrapped__ := 0 |}
|}.

(** The world after [f] has been declared at location 0 and decorated:
    the prompt function is at location 3. *)
Definition sample_world (p : BaseChatPromptFunction) (default : ChatModel)
  : world := {|
  heap := <[3 := Prompt p]> (<[2 := List [VType int]]>
            (<[1 := List []]> {[0 := Function f]}));
  default_chat_model := default;
  calls := []
|}.

(** The same world with the prompt function present twice, as an instance
    of the blocking class at 3 and of the suspending class at 4. *)
Definition twin_world (p : BaseChatPromptFunction) (default : ChatModel)
  : world := {|
  heap := <[4 := Prompt (with_class AsyncChatPromptFunction p)]>
            (<[3 := Prompt (with_class ChatPromptFunction p)]>
               (<[2 := List [VType int]]>
                  (<[1 := List []]> {[0 := Function f]})));
  default_chat_model := default;
  calls := []
|}.

(** [f] with two retries and no handle of its own. *)
Definition retrying_f : BaseChatPromptFunction :=
  sample_prompt ChatPromptFunction f_parameters 2 None.

(** [f] and [g] without retries and without a handle of their own. *)
Definition plain_f : BaseChatPromptFunction :=
  sample_prompt ChatPromptFunction f_parameters 0 None.

Definition plain_g : BaseChatPromptFunction :=
  sample_prompt ChatPromptFunction g_parameters 0 None.

(** The world in which only [f] has been declared, at location 0. *)
Definition declared_world (default : ChatModel) : world := {|
  heap := {[0 := Function f]};
  default_chat_model := default;
  calls := []
|}.


(** The world in which [f] has been declared at location 0 and the
    caller holds two lists: one side-callable at 1, one stop string at 2. *)
Definition tooled_world (default : ChatModel) : world := {|
  heap := <[2 := List [VStr "END"]]>
            (<[1 := List [VCallable "tool"]]> {[0 := Function f]});
  default_chat_model := default;
  calls := []
|}.


(** [a] declared twice. *)
Definition doubled_parameters : list Param :=
  [ {| param_name := "a"; param_kind := POSITIONAL_OR_KEYWORD;
       param_default := None |};
    {| param_name := "a"; param_kind := POSITIONAL_OR_KEYWORD;
       param_default := None |} ].

(** * Properties *)

(** ** Escaping and rendering *)

Lemma escape_braces_cons (c : ascii) (s : string) :
  escape_braces (String c s) =
  if Ascii.eqb c open_brace then
    String open_brace (String open_brace (escape_braces s))
  else if Ascii.eqb c close_brace then
    String close_brace (String close_brace (escape_braces s))
  else String c (escape_braces s).
Proof.
  unfold escape_braces. cbn [replace].
  destruct (Ascii.eqb c open_brace) eqn:Eo.
  - reflexivity.
  - cbn [replace]. destruct (Ascii.eqb c close_brace); reflexivity.
Qed.

Lemma escape_braces_length (s : string) :
  String.length s <= String.length (escape_braces s).
Proof.
  induction s as [|c s IH]; [reflexivity|].
  rewrite escape_braces_cons.
  destruct (Ascii.eqb c open_brace);
    [|destruct (Ascii.eqb c close_brace)];
    cbn [String.length]; lia.
Qed.

Section FormatFacts.
Context {protocol : ObjectProtocol}.

(** The markup loop gives back an escaped text without ever parsing a
    field. *)
Lemma markup_escape_braces expand kwargs (s : string) : forall fuel,
  String.length (escape_braces s) <= fuel ->
  markup expand kwargs fuel (escape_braces s) = Return s.
Proof.
  induction s as [|c s IH]; intros fuel Hfuel; [destruct fuel; reflexivity|].
  rewrite escape_braces_cons in Hfuel |- *.
  destruct (Ascii.eqb c open_brace) eqn:Eo.
  - apply Ascii.eqb_eq in Eo. subst c.
    cbn [String.length] in Hfuel.
    destruct fuel as [|fuel]; [lia|].
    cbn [markup]. change (Ascii.eqb open_brace open_brace) with true.
    cbv iota. rewrite IH by lia. reflexivity.
  - destruct (Ascii.eqb c close_brace) eqn:Ec.
    + apply Ascii.eqb_eq in Ec. subst c.
      cbn [String.length] in Hfuel.
      destruct fuel as [|fuel]; [lia|].
      cbn [markup]. rewrite Eo.
      change (Ascii.eqb close_brace close_brace) with true.
      cbv iota. rewrite IH by lia. reflexivity.
    + cbn [String.length] in Hfuel.
      destruct fuel as [|fuel]; [lia|].
      cbn [markup]. rewrite Eo, Ec. rewrite IH by lia. reflexivity.
Qed.

Lemma str_format_escape_braces (s : string) (kwargs : dict) :
  str_format (escape_braces s) kwargs = Return s.
Proof.
  unfold str_format. cbn [build_string]. apply markup_escape_braces. lia.
Qed.

End FormatFacts.

(** *** The fuel of the markup loop *)

Lemma scan_field_name_shorter (s : string) :
  forall in_index name stop rest,
    scan_field_name in_index s = Return (name, stop, rest) ->
    String.length rest < String.length s.
Proof.
  induction s as [|c s IH]; intros in_index name stop rest Hscan;
    cbn [scan_field_name] in Hscan; [discriminate|].
  assert (forall b, (scan_field_name b s ≫= fun '(name0, stop0, rest') =>
                       mret (String c name0, stop0, rest'))
                    = Return (name, stop, rest) ->
                    String.length rest < String.length (String c s)) as Hrec.
  { intros b Hb.
    destruct (scan_field_name b s) as [[[name0 stop0] rest0]|e] eqn:E;
      cbn [mbind result_bind] in Hb; [|discriminate].
    injection Hb as <- <- <-. apply IH in E. cbn [String.length]. lia. }
  destruct in_index; [eauto|].
  destruct (Ascii.eqb c open_brace); [discriminate|].
  destruct (Ascii.eqb c close_brace || Ascii.eqb c ":" || Ascii.eqb c "!");
    [|eauto].
  injection Hscan as <- <- <-. cbn [String.length]. lia.
Qed.

Lemma scan_format_spec_shorter (s : string) :
  forall bracecount spec rest,
    scan_format_spec bracecount s = Return (spec, rest) ->
    String.length rest < String.length s.
Proof.
  induction s as [|c s IH]; intros bracecount spec rest Hscan;
    cbn [scan_format_spec] in Hscan; [discriminate|].
  assert (forall n, (scan_format_spec n s ≫= fun '(spec0, rest') =>
                       mret (String c spec0, rest'))
                    = Return (spec, rest) ->
                    String.length rest < String.length (String c s)) as Hrec.
  { intros n Hn.
    destruct (scan_format_spec n s) as [[spec0 rest0]|e] eqn:E;
      cbn [mbind result_bind] in Hn; [|discriminate].
    injection Hn as <- <-. apply IH in E. cbn [String.length]. lia. }
  destruct (Ascii.eqb c open_brace); [eauto|].
  destruct (Ascii.eqb c close_brace); [|eauto].
  destruct bracecount as [|n]; [|eauto].
  injection Hscan as <- <-. cbn [String.length]. lia.
Qed.

Lemma parse_field_shorter (s : string) (f : replacement_field) (rest : string) :
  parse_field s = Return (f, rest) -> String.length rest < String.length s.
Proof.
  unfold parse_field. intros Hparse.
  destruct (scan_field_name false s) as [[[name stop] rest0]|e] eqn:Ename;
    cbn [mbind result_bind] in Hparse; [|discriminate].
  apply scan_field_name_shorter in Ename.
  assert (forall r, (scan_format_spec 0 r ≫= fun '(spec, rest') => Return (f, rest'))
                    = Return (f, rest) ->
                    String.length rest < String.length r) as Hspec.
  { intros r Hr.
    destruct (scan_format_spec 0 r) as [[spec rest1]|e] eqn:E;
      cbn [mbind result_bind] in Hr; [|discriminate].
    injection Hr as <-. apply scan_format_spec_shorter in E. exact E. }
  destruct (Ascii.eqb stop close_brace).
  { injection Hparse as <- <-. exact Ename. }
  destruct (Ascii.eqb stop ":").
  { destruct (scan_format_spec 0 rest0) as [[spec rest1]|e] eqn:E;
      cbn [mbind result_bind] in Hparse; [|discriminate].
    injection Hparse as <- <-. apply scan_format_spec_shorter in E. lia. }
  destruct rest0 as [|conv [|c rest1]]; try discriminate.
  cbn [String.length] in Ename.
  destruct (Ascii.eqb c close_brace).
  { injection Hparse as <- <-. lia. }
  destruct (Ascii.eqb c ":"); [|discriminate].
  destruct (scan_format_spec 0 rest1) as [[spec rest2]|e] eqn:E;
    cbn [mbind result_bind] in Hparse; [|discriminate].
  injection Hparse as <- <-. apply scan_format_spec_shorter in E. lia.
Qed.

Section FuelFacts.
Context {protocol : ObjectProtocol}.

(** The length of the format string is fuel enough: with any more the loop
    has the same outcome. *)
Lemma markup_fuel expand kwargs (n : nat) :
  forall m s,
    String.length s <= n -> String.length s <= m ->
    markup expand kwargs n s = markup expand kwargs m s.
Proof.
  induction n as [|n IH]; intros m s Hn Hm.
  - destruct s; [destruct m; reflexivity | cbn [String.length] in Hn; lia].
  - destruct s as [|c s]; [destruct m; reflexivity|].
    destruct m as [|m]; [cbn [String.length] in Hm; lia|].
    cbn [String.length] in Hn, Hm. cbn [markup].
    destruct (Ascii.eqb c open_brace).
    + destruct s as [|c' s']; [reflexivity|].
      cbn [String.length] in Hn, Hm.
      destruct (Ascii.eqb c' open_brace).
      * rewrite (IH m s') by lia. reflexivity.
      * destruct (parse_field (String c' s')) as [[f rest]|e] eqn:Efield;
          cbn [mbind result_bind]; [|reflexivity].
        apply parse_field_shorter in Efield. cbn [String.length] in Efield.
        rewrite (IH m rest) by lia. reflexivity.
    + destruct (Ascii.eqb c close_brace).
      * destruct s as [|c' s']; [reflexivity|].
        cbn [String.length] in Hn, Hm.
        destruct (Ascii.eqb c' close_brace); [|reflexivity].
        rewrite (IH m s') by lia. reflexivity.
      * rewrite (IH m s) by lia. reflexivity.
Qed.

End FuelFacts.

(** ** Splitting a union *)








(** ** Binding arguments *)

Lemma dict_remove_length (key : string) (d : dict) (v : value) :
  dict_get key d = Some v -> S (length (dict_remove key d)) = length d.
Proof.
  induction d as [|[k x] d IH]; cbn [dict_get dict_remove]; [discriminate|].
  destruct (String.eqb k key); [reflexivity|].
  intros Hget. cbn [length]. rewrite IH by assumption. reflexivity.
Qed.

(** When every parameter is required, the positional loop uses one
    parameter for each argument and hands the others over untouched. *)
Lemma bind_positional_required (params : list Param) (args : list value)
    (kwargs : dict) : forall (arguments arguments' : dict) (rest : list Param),
  forallb required params = true ->
  bind_positional params args kwargs arguments = Return (arguments', rest) ->
  length rest + length args = length params /\ forallb required rest = true.
Proof.
  revert params.
  induction args as [|arg_val args IH]; intros params arguments arguments' rest Hreq Hbind.
  - destruct params as [|param params]; cbn [bind_positional] in Hbind.
    + injection Hbind as <- <-. split; reflexivity.
    + cbn [forallb] in Hreq. apply andb_true_iff in Hreq as [Hp Hps].
      unfold required in Hp.
      apply andb_true_iff in Hp as [Hp Hkw]. apply andb_true_iff in Hp as [Hdef Hvp].
      apply negb_true_iff in Hdef, Hvp, Hkw.
      rewrite Hvp, Hkw, Hdef in Hbind. cbn [orb] in Hbind.
      destruct (dict_mem (param_name param) kwargs); [|discriminate].
      destruct (kind_eqb (param_kind param) POSITIONAL_ONLY); [discriminate|].
      injection Hbind as <- <-. split.
      * cbn [length]. lia.
      * cbn [forallb]. apply andb_true_iff. split; [|assumption].
        unfold required. rewrite Hdef, Hvp, Hkw. reflexivity.
  - destruct params as [|param params]; cbn [bind_positional] in Hbind;
      [discriminate|].
    cbn [forallb] in Hreq. apply andb_true_iff in Hreq as [Hp Hps].
    unfold required in Hp.
    apply andb_true_iff in Hp as [Hp Hkw]. apply andb_true_iff in Hp as [Hdef Hvp].
    apply negb_true_iff in Hvp, Hkw.
    rewrite Hvp, Hkw in Hbind. cbn [orb] in Hbind.
    destruct (kind_eqb (param_kind param) KEYWORD_ONLY); [discriminate|].
    destruct (dict_mem (param_name param) kwargs
              && negb (kind_eqb (param_kind param) POSITIONAL_ONLY));
      [discriminate|].
    apply IH in Hbind as [Hlen Hrest]; [|assumption].
    split; [cbn [length]; lia | assumption].
Qed.

(** When every parameter is required, the keyword loop takes a keyword
    argument away for each of them. *)
Lemma bind_keywords_required (params : list Param) :
  forall (kwargs arguments : dict) (kwargs_param : option Param) out,
  forallb required params = true ->
  bind_keywords params kwargs arguments kwargs_param = Return out ->
  length params <= length kwargs.
Proof.
  induction params as [|param params IH];
    intros kwargs arguments kwargs_param out Hreq Hbind;
    [cbn [length]; lia|].
  cbn [forallb] in Hreq. apply andb_true_iff in Hreq as [Hp Hps].
  unfold required in Hp.
  apply andb_true_iff in Hp as [Hp Hkw]. apply andb_true_iff in Hp as [Hdef Hvp].
  apply negb_true_iff in Hdef, Hvp, Hkw.
  cbn [bind_keywords] in Hbind. rewrite Hkw, Hvp, Hdef in Hbind.
  destruct (dict_get (param_name param) kwargs) as [arg_val|] eqn:Hget;
    [|discriminate].
  destruct (kind_eqb (param_kind param) POSITIONAL_ONLY); [discriminate|].
  apply IH in Hbind; [|assumption].
  apply dict_remove_length in Hget. cbn [length]. lia.
Qed.

(** Whatever goes wrong in the two loops is a [TypeError]. *)
Lemma bind_positional_raises (params : list Param) (args : list value)
    (kwargs : dict) : forall (arguments : dict) (e : exn),
  bind_positional params args kwargs arguments = Raise e ->
  exists why, e = TypeError why.
Proof.
  revert params.
  induction args as [|arg_val args IH]; intros params arguments e Hbind;
    destruct params as [|param params]; cbn [bind_positional] in Hbind.
  - discriminate.
  - repeat match type of Hbind with
           | (if ?b then _ else _) = _ => destruct b
           end; try discriminate; injection Hbind as <-; eauto.
  - injection Hbind as <-; eauto.
  - repeat match type of Hbind with
           | (if ?b then _ else _) = _ => destruct b
           end; try discriminate; try (injection Hbind as <-; eauto; fail).
    eapply IH. eassumption.
Qed.

Lemma bind_keywords_raises (params : list Param) :
  forall (kwargs arguments : dict) (kwargs_param : option Param) (e : exn),
  bind_keywords params kwargs arguments kwargs_param = Raise e ->
  exists why, e = TypeError why.
Proof.
  induction params as [|param params IH];
    intros kwargs arguments kwargs_param e Hbind;
    cbn [bind_keywords] in Hbind; [discriminate|].
  destruct (kind_eqb (param_kind param) VAR_KEYWORD); [eauto|].
  destruct (kind_eqb (param_kind param) VAR_POSITIONAL); [eauto|].
  destruct (dict_get (param_name param) kwargs).
  - destruct (kind_eqb (param_kind param) POSITIONAL_ONLY);
      [injection Hbind as <-|]; eauto.
  - destruct (has_default param); [|injection Hbind as <-]; eauto.
Qed.

Lemma bind_raises (sig : Signature) (args : list value) (kwargs : dict)
    (e : exn) :
  bind sig args kwargs = Raise e -> exists why, e = TypeError why.
Proof.
  unfold bind. intros Hbind.
  destruct (bind_positional (parameters sig) args kwargs [])
    as [[arguments params]|e'] eqn:Epos; cbn [mbind result_bind] in Hbind.
  - destruct (bind_keywords params kwargs arguments None)
      as [[[arguments' kwargs'] kwargs_param]|e'] eqn:Ekw;
      cbn [mbind result_bind] in Hbind.
    + destruct kwargs' as [|[k v] kwargs']; [discriminate|].
      destruct kwargs_param; [discriminate|].
      injection Hbind as <-. eauto.
    + injection Hbind as <-. eapply bind_keywords_raises. eassumption.
  - injection Hbind as <-. eapply bind_positional_raises. eassumption.
Qed.

(** Too few arguments for a signature of required parameters cannot be
    bound. *)
Lemma bind_too_few (sig : Signature) (args : list value) (kwargs : dict) :
  forallb required (parameters sig) = true ->
  length args + length kwargs < length (parameters sig) ->
  exists why, bind sig args kwargs = Raise (TypeError why).
Proof.
  intros Hreq Hfew.
  destruct (bind sig args kwargs) as [arguments|e] eqn:Hbind.
  - exfalso. unfold bind in Hbind.
    destruct (bind_positional (parameters sig) args kwargs [])
      as [[arguments0 params]|e'] eqn:Epos; cbn [mbind result_bind] in Hbind;
      [|discriminate].
    apply bind_positional_required in Epos as [Hlen Hrest]; [|assumption].
    destruct (bind_keywords params kwargs arguments0 None) as [out|e'] eqn:Ekw;
      cbn [mbind result_bind] in Hbind; [|discriminate].
    apply bind_keywords_required in Ekw; [|assumption]. lia.
  - apply bind_raises in Hbind as [why ->]. eauto.
Qed.

(** *** Valid signatures *)

Lemma existsb_eqb_false (name : string) (seen : list string) :
  existsb (String.eqb name) seen = false -> name ∉ seen.
Proof.
  intros Hnot Hin.
  assert (existsb (String.eqb name) seen = true) as Hyes; [|congruence].
  apply existsb_exists. exists name.
  split; [apply list_elem_of_In; assumption | apply String.eqb_refl].
Qed.

(** A parameter list that passes the checks has no name twice. *)
Lemma validate_parameters_NoDup (params : list Param) :
  forall top_kind kind_defaults seen,
    validate_parameters top_kind kind_defaults seen params = Return tt ->
    NoDup (param_name <$> params)
    /\ forall name, name ∈ param_name <$> params -> name ∉ seen.
Proof.
  induction params as [|param params IH]; intros top_kind kind_defaults seen Hvalid.
  - split; [constructor|]. intros name Hin. apply elem_of_nil in Hin. contradiction.
  - cbn [validate_parameters] in Hvalid. cbv zeta in Hvalid.
    repeat match type of Hvalid with
           | (if ?c then Raise _ else _) = _ =>
               let E := fresh "E" in destruct c eqn:E; [discriminate|]
           end.
    match goal with
    | E : existsb _ seen = false |- _ => apply existsb_eqb_false in E; rename E into Hnew
    end.
    apply IH in Hvalid as [Hnodup Hseen].
    cbn [fmap list_fmap]. fold (fmap param_name params). split.
    + constructor; [|assumption].
      intros Hin. apply (Hseen _ Hin). apply elem_of_cons. auto.
    + intros name Hin. apply elem_of_cons in Hin as [->|Hin]; [assumption|].
      intros Hin'. apply (Hseen _ Hin). apply elem_of_cons. auto.
Qed.

Lemma Signature_init_NoDup (params : list Param) (annotation : type_descriptor)
    (sig : Signature) :
  Signature_init params annotation = Return sig ->
  parameters sig = params /\ NoDup (param_name <$> parameters sig).
Proof.
  unfold Signature_init. intros Hinit.
  destruct (validate_parameters POSITIONAL_ONLY false [] params) as [[]|e] eqn:E;
    cbn [mbind result_bind] in Hinit; [|discriminate].
  injection Hinit as <-. cbn [parameters].
  split; [reflexivity|]. apply validate_parameters_NoDup in E as [Hnodup _].
  exact Hnodup.
Qed.

(** *** Dictionaries *)

Lemma dict_get_set_eq (k : string) (v : value) (a : dict) :
  dict_get k (dict_set k v a) = Some v.
Proof.
  induction a as [|[k' x] a IH]; cbn [dict_set dict_get].
  - rewrite String.eqb_refl. reflexivity.
  - destruct (String.eqb k' k) eqn:E; cbn [dict_get]; rewrite E;
      [reflexivity | assumption].
Qed.

Lemma dict_get_set_ne (k k' : string) (v : value) (a : dict) :
  k <> k' -> dict_get k (dict_set k' v a) = dict_get k a.
Proof.
  intros Hne. induction a as [|[k0 x] a IH]; cbn [dict_set dict_get].
  - destruct (String.eqb k' k) eqn:E; [|reflexivity].
    apply String.eqb_eq in E. congruence.
  - destruct (String.eqb k0 k') eqn:E; cbn [dict_get].
    + apply String.eqb_eq in E. subst k0.
      destruct (String.eqb k' k) eqn:E'; [|reflexivity].
      apply String.eqb_eq in E'. congruence.
    + rewrite IH. reflexivity.
Qed.

Lemma dict_get_set_keeps (k k' : string) (v : value) (a : dict) :
  dict_get k a <> None -> dict_get k (dict_set k' v a) <> None.
Proof.
  intros Hk. destruct (String.eqb k k') eqn:E.
  - apply String.eqb_eq in E. subst k'. rewrite dict_get_set_eq. discriminate.
  - apply String.eqb_neq in E. rewrite dict_get_set_ne; assumption.
Qed.

Lemma dict_get_app_last (k name : string) (d : value) (kw : dict) :
  dict_get k (kw ++ [(name, d)]) =
  match dict_get k kw with
  | Some v => Some v
  | None => if String.eqb name k then Some d else None
  end.
Proof.
  induction kw as [|[k' x] kw IH]; cbn [app dict_get]; [reflexivity|].
  destruct (String.eqb k' k); [reflexivity | assumption].
Qed.

Lemma dict_remove_app_last (k name : string) (d v : value) (kw : dict) :
  dict_get k kw = Some v ->
  dict_remove k (kw ++ [(name, d)]) = dict_remove k kw ++ [(name, d)].
Proof.
  induction kw as [|[k' x] kw IH]; cbn [app dict_get dict_remove];
    [discriminate|].
  destruct (String.eqb k' k); [reflexivity|].
  intros Hget. cbn [app]. rewrite IH by assumption. reflexivity.
Qed.

Lemma dict_remove_last (name : string) (d : value) (kw : dict) :
  dict_get name kw = None -> dict_remove name (kw ++ [(name, d)]) = kw.
Proof.
  induction kw as [|[k' x] kw IH]; cbn [app dict_get dict_remove].
  - rewrite String.eqb_refl. reflexivity.
  - destruct (String.eqb k' name); [discriminate|].
    intros Hget. rewrite IH by assumption. reflexivity.
Qed.

Lemma dict_mem_app_last (k name : string) (d : value) (kw : dict) :
  k <> name -> dict_mem k (kw ++ [(name, d)]) = dict_mem k kw.
Proof.
  intros Hne. unfold dict_mem. rewrite dict_get_app_last.
  destruct (dict_get k kw); [reflexivity|].
  destruct (String.eqb name k) eqn:E; [|reflexivity].
  apply String.eqb_eq in E. congruence.
Qed.

Lemma with_default_set (name : string) (d : value) (b b' : dict)
    (k : string) (v : value) :
  k <> name -> with_default name d b b' ->
  with_default name d (dict_set k v b) (dict_set k v b').
Proof.
  intros Hne Hrel k0.
  destruct (String.eqb k0 k) eqn:E.
  - apply String.eqb_eq in E. subst k0. rewrite !dict_get_set_eq.
    destruct (String.eqb name k) eqn:E'; [|reflexivity].
    apply String.eqb_eq in E'. congruence.
  - apply String.eqb_neq in E. rewrite !dict_get_set_ne by assumption.
    apply Hrel.
Qed.

Lemma with_default_new (name : string) (d : value) (b : dict) :
  dict_get name b = None -> with_default name d b (dict_set name d b).
Proof.
  intros Hnone k. destruct (String.eqb name k) eqn:E.
  - apply String.eqb_eq in E. subst k. apply dict_get_set_eq.
  - apply String.eqb_neq in E. apply dict_get_set_ne. congruence.
Qed.

(** *** What is bound stays bound *)

Lemma bind_positional_keeps (params : list Param) (args : list value)
    (kwargs : dict) (k : string) :
  forall arguments arguments' rest,
    bind_positional params args kwargs arguments = Return (arguments', rest) ->
    dict_get k arguments <> None -> dict_get k arguments' <> None.
Proof.
  revert params.
  induction args as [|arg_val args IH]; intros params arguments arguments' rest Hbind Hk;
    destruct params as [|param params]; cbn [bind_positional] in Hbind;
    try discriminate.
  - injection Hbind as <- <-. assumption.
  - repeat match type of Hbind with
           | (if ?b then _ else _) = _ => destruct b
           end; try discriminate; injection Hbind as <- <-; assumption.
  - destruct (kind_eqb (param_kind param) VAR_KEYWORD
              || kind_eqb (param_kind param) KEYWORD_ONLY); [discriminate|].
    destruct (kind_eqb (param_kind param) VAR_POSITIONAL).
    + injection Hbind as <- <-. apply dict_get_set_keeps. assumption.
    + destruct (dict_mem (param_name param) kwargs
                && negb (kind_eqb (param_kind param) POSITIONAL_ONLY));
        [discriminate|].
      eapply IH; [eassumption|]. apply dict_get_set_keeps. assumption.
Qed.

Lemma bind_keywords_keeps (params : list Param) (k : string) :
  forall kwargs arguments kwargs_param arguments' kwargs' kwargs_param',
    bind_keywords params kwargs arguments kwargs_param
    = Return (arguments', kwargs', kwargs_param') ->
    dict_get k arguments <> None -> dict_get k arguments' <> None.
Proof.
  induction params as [|param params IH];
    intros kwargs arguments kwargs_param arguments' kwargs' kwargs_param' Hbind Hk;
    cbn [bind_keywords] in Hbind.
  - injection Hbind as <- <- <-. assumption.
  - destruct (kind_eqb (param_kind param) VAR_KEYWORD); [eauto|].
    destruct (kind_eqb (param_kind param) VAR_POSITIONAL); [eauto|].
    destruct (dict_get (param_name param) kwargs).
    + destruct (kind_eqb (param_kind param) POSITIONAL_ONLY); [discriminate|].
      eapply IH; [eassumption|]. apply dict_get_set_keeps. assumption.
    + destruct (has_default param); [eauto | discriminate].
Qed.

(** *** Passing a default by keyword *)

Section ExplicitDefault.
Variables (name : string) (d : value).

Lemma keywordable_kinds (q : Param) :
  keywordable q = true ->
  kind_eqb (param_kind q) VAR_KEYWORD = false
  /\ kind_eqb (param_kind q) VAR_POSITIONAL = false
  /\ kind_eqb (param_kind q) POSITIONAL_ONLY = false.
Proof. unfold keywordable. destruct (param_kind q); cbn; intros; auto; discriminate. Qed.

(** The positional loop does not notice the additional keyword. *)
Lemma bind_positional_extra (kwargs : dict) (args : list value) :
  forall params arguments arguments' rest,
    defaulted name d params ->
    bind_positional params args kwargs arguments = Return (arguments', rest) ->
    dict_get name arguments' = None ->
    bind_positional params args (kwargs ++ [(name, d)]) arguments
    = Return (arguments', rest)
    /\ exists pre,
         params = pre ++ rest /\ Forall (fun q => param_name q <> name) pre.
Proof.
  induction args as [|arg_val args IH];
    intros params arguments arguments' rest Hdef Hbind Hnone;
    destruct params as [|param params]; cbn [bind_positional] in Hbind |- *;
    try discriminate.
  - injection Hbind as <- <-. split; [reflexivity|]. exists []. split; [reflexivity|constructor].
  - apply Forall_cons in Hdef as [Hparam Hdef].
    destruct (kind_eqb (param_kind param) VAR_POSITIONAL) eqn:Evp.
    { injection Hbind as <- <-. split; [reflexivity|].
      exists [param]. split; [reflexivity|].
      constructor; [|constructor]. intros Hname.
      destruct (Hparam Hname) as [_ Hkw].
      apply keywordable_kinds in Hkw as (_ & Hkw & _). congruence. }
    destruct (String.eqb (param_name param) name) eqn:Ename.
    + apply String.eqb_eq in Ename. destruct (Hparam Ename) as [Hd Hkw].
      apply keywordable_kinds in Hkw as (Hvk & _ & Hpo).
      assert (dict_mem (param_name param) (kwargs ++ [(name, d)]) = true) as ->.
      { unfold dict_mem. rewrite dict_get_app_last, Ename, String.eqb_refl.
        destruct (dict_get name kwargs); reflexivity. }
      rewrite Hpo in Hbind |- *. unfold has_default in Hbind. rewrite Hd in Hbind.
      rewrite orb_true_r in Hbind.
      destruct (dict_mem (param_name param) kwargs); injection Hbind as <- <-;
        (split; [reflexivity|]); exists []; (split; [reflexivity|constructor]).
    + apply String.eqb_neq in Ename.
      rewrite (dict_mem_app_last _ _ _ _ Ename).
      repeat match type of Hbind with
             | (if ?b then _ else _) = _ => destruct b
             end; try discriminate; injection Hbind as <- <-;
        (split; [reflexivity|]); exists []; (split; [reflexivity|constructor]).
  - apply Forall_cons in Hdef as [Hparam Hdef].
    destruct (kind_eqb (param_kind param) VAR_KEYWORD
              || kind_eqb (param_kind param) KEYWORD_ONLY); [discriminate|].
    destruct (kind_eqb (param_kind param) VAR_POSITIONAL).
    { injection Hbind as <- <-. split; [reflexivity|].
      exists [param]. split; [reflexivity|].
      constructor; [|constructor]. intros Hname.
      rewrite <- Hname, dict_get_set_eq in Hnone. discriminate. }
    assert (param_name param <> name) as Hne.
    { intros Hname.
      destruct (dict_mem (param_name param) kwargs
                && negb (kind_eqb (param_kind param) POSITIONAL_ONLY));
        [discriminate|].
      eapply bind_positional_keeps in Hbind; [apply Hbind; exact Hnone|].
      rewrite Hname, dict_get_set_eq. discriminate. }
    rewrite (dict_mem_app_last _ _ _ _ Hne).
    destruct (dict_mem (param_name param) kwargs
              && negb (kind_eqb (param_kind param) POSITIONAL_ONLY));
      [discriminate|].
    destruct (IH _ _ _ _ Hdef Hbind Hnone) as (Hnew & pre & -> & Hpre).
    split; [exact Hnew|].
    exists (param :: pre). split; [reflexivity|]. constructor; assumption.
Qed.

(** Once the parameter called [name] is behind, the keyword loop carries
    a binding of [name] along. *)
Lemma bind_keywords_with_default (params : list Param) :
  forall kwargs arguments arguments' kwargs_param out_arguments out_kwargs
         out_param,
    Forall (fun q => param_name q <> name) params ->
    with_default name d arguments arguments' ->
    bind_keywords params kwargs arguments kwargs_param
    = Return (out_arguments, out_kwargs, out_param) ->
    exists out_arguments',
      bind_keywords params kwargs arguments' kwargs_param
      = Return (out_arguments', out_kwargs, out_param)
      /\ with_default name d out_arguments out_arguments'.
Proof.
  induction params as [|param params IH];
    intros kwargs arguments arguments' kwargs_param out_arguments out_kwargs
           out_param Hne Hrel Hbind; cbn [bind_keywords] in Hbind |- *.
  - injection Hbind as <- <- <-. eauto.
  - apply Forall_cons in Hne as [Hparam Hne].
    destruct (kind_eqb (param_kind param) VAR_KEYWORD); [eauto|].
    destruct (kind_eqb (param_kind param) VAR_POSITIONAL); [eauto|].
    destruct (dict_get (param_name param) kwargs) as [arg_val|].
    + destruct (kind_eqb (param_kind param) POSITIONAL_ONLY); [discriminate|].
      eapply IH; [assumption | | eassumption].
      apply with_default_set; assumption.
    + destruct (has_default param); [eauto | discriminate].
Qed.

(** The keyword loop binds the additional keyword to the parameter called
    [name] and is otherwise as before. *)
Lemma bind_keywords_extra (params : list Param) :
  forall kwargs arguments kwargs_param out_arguments out_kwargs out_param,
    NoDup (param_name <$> params) ->
    name ∈ param_name <$> params ->
    defaulted name d params ->
    bind_keywords params kwargs arguments kwargs_param
    = Return (out_arguments, out_kwargs, out_param) ->
    dict_get name out_arguments = None ->
    exists out_arguments',
      bind_keywords params (kwargs ++ [(name, d)]) arguments kwargs_param
      = Return (out_arguments', out_kwargs, out_param)
      /\ with_default name d out_arguments out_arguments'.
Proof.
  induction params as [|param params IH];
    intros kwargs arguments kwargs_param out_arguments out_kwargs out_param
           Hnodup Hin Hdef Hbind Hnone.
  - apply elem_of_nil in Hin. contradiction.
  - cbn [fmap list_fmap] in Hnodup, Hin. fold (fmap param_name params) in *.
    apply NoDup_cons in Hnodup as [Hfirst Hnodup].
    apply Forall_cons in Hdef as [Hparam Hdef].
    cbn [bind_keywords] in Hbind |- *.
    destruct (String.eqb (param_name param) name) eqn:Ename.
    + apply String.eqb_eq in Ename. destruct (Hparam Ename) as [Hd Hkw].
      apply keywordable_kinds in Hkw as (Hvk & Hvp & Hpo).
      rewrite Hvk, Hvp in Hbind |- *.
      assert (Forall (fun q => param_name q <> name) params) as Hrest.
      { apply Forall_forall. intros q Hq Hqname. apply Hfirst.
        rewrite Ename, <- Hqname. apply list_elem_of_fmap. eauto. }
      rewrite Ename in Hbind |- *.
      destruct (dict_get name kwargs) as [arg_val|] eqn:Hget.
      * exfalso. rewrite Hpo in Hbind.
        eapply bind_keywords_keeps in Hbind; [apply Hbind; exact Hnone|].
        rewrite dict_get_set_eq. discriminate.
      * unfold has_default in Hbind. rewrite Hd in Hbind.
        rewrite dict_get_app_last, Hget, String.eqb_refl, Hpo.
        rewrite (dict_remove_last _ _ _ Hget).
        eapply bind_keywords_with_default; [exact Hrest | | exact Hbind].
        apply with_default_new.
        destruct (dict_get name arguments) eqn:Hhas; [|reflexivity].
        exfalso. eapply bind_keywords_keeps in Hbind; [apply Hbind; exact Hnone|].
        rewrite Hhas. discriminate.
    + apply String.eqb_neq in Ename.
      assert (name ∈ param_name <$> params) as Hin'.
      { apply elem_of_cons in Hin as [Heq|Hin]; [congruence | assumption]. }
      destruct (kind_eqb (param_kind param) VAR_KEYWORD); [eauto|].
      destruct (kind_eqb (param_kind param) VAR_POSITIONAL); [eauto|].
      rewrite dict_get_app_last.
      destruct (dict_get (param_name param) kwargs) as [arg_val|] eqn:Hget.
      * destruct (kind_eqb (param_kind param) POSITIONAL_ONLY); [discriminate|].
        rewrite (dict_remove_app_last _ _ _ _ _ Hget). eauto.
      * assert (String.eqb name (param_name param) = false) as ->
          by (apply String.eqb_neq; congruence).
        destruct (has_default param); [eauto | discriminate].
Qed.

(** A call that leaves [name] unbound binds, with the keyword argument
    [name = d] added, the same arguments and [d] to [name]. *)
Lemma bind_extra_keyword (sig : Signature) (args : list value) (kwargs b : dict) :
  NoDup (param_name <$> parameters sig) ->
  name ∈ param_name <$> parameters sig ->
  defaulted name d (parameters sig) ->
  bind sig args kwargs = Return b ->
  dict_get name b = None ->
  exists b',
    bind sig args (kwargs ++ [(name, d)]) = Return b'
    /\ with_default name d b b'.
Proof.
  intros Hnodup Hin Hdef Hbind Hnone. unfold bind in Hbind |- *.
  destruct (bind_positional (parameters sig) args kwargs [])
    as [[arguments rest]|e] eqn:Epos; cbn [mbind result_bind] in Hbind;
    [|discriminate].
  destruct (bind_keywords rest kwargs arguments None)
    as [[[out_arguments out_kwargs] out_param]|e] eqn:Ekw;
    cbn [mbind result_bind] in Hbind; [|discriminate].
  assert (dict_get name out_arguments = None
          /\ forall q, out_kwargs <> [] -> out_param = Some q ->
                       param_name q <> name) as [Hout Hq].
  { destruct out_kwargs as [|[k v] out_kwargs].
    - injection Hbind as <-. split; [assumption|]. congruence.
    - destruct out_param as [q|]; [|discriminate]. injection Hbind as <-.
      assert (param_name q <> name) as Hne.
      { intros Hname. rewrite <- Hname, dict_get_set_eq in Hnone. discriminate. }
      split; [|congruence].
      rewrite dict_get_set_ne in Hnone by congruence. assumption. }
  assert (dict_get name arguments = None) as Hargs.
  { destruct (dict_get name arguments) eqn:Hhas; [|reflexivity].
    exfalso. eapply bind_keywords_keeps in Ekw; [apply Ekw; exact Hout|].
    rewrite Hhas. discriminate. }
  destruct (bind_positional_extra _ _ _ _ _ _ Hdef Epos Hargs)
    as (Hpos' & pre & Hsplit & Hpre).
  rewrite Hpos'. cbn [mbind result_bind].
  rewrite Hsplit, fmap_app in Hnodup, Hin. rewrite Hsplit in Hdef.
  apply NoDup_app in Hnodup as (_ & _ & Hnodup).
  apply Forall_app in Hdef as [_ Hdef].
  apply elem_of_app in Hin as [Hin|Hin].
  { exfalso. apply list_elem_of_fmap in Hin as (q & Hname & Hqpre).
    rewrite Forall_forall in Hpre. apply (Hpre q Hqpre). congruence. }
  destruct (bind_keywords_extra _ _ _ _ _ _ _ Hnodup Hin Hdef Ekw Hout)
    as (out_arguments' & Hkw' & Hrel).
  rewrite Hkw'. cbn [mbind result_bind].
  destruct out_kwargs as [|[k v] out_kwargs].
  - injection Hbind as <-. eauto.
  - destruct out_param as [q|]; [|discriminate]. injection Hbind as <-.
    eexists. split; [reflexivity|].
    apply with_default_set; [|assumption]. apply Hq; [discriminate | reflexivity].
Qed.

(** Applying the defaults makes up for the difference. *)
Lemma apply_defaults_with_default (params : list Param) (b b' : dict) :
  Forall (fun q => param_name q = name -> param_default q = Some d) params ->
  with_default name d b b' ->
  dict_get name b = None ->
  apply_defaults params b' = apply_defaults params b.
Proof.
  intros Hdef Hrel Hnone.
  induction Hdef as [|param params Hparam Hdef IH]; cbn [apply_defaults];
    [reflexivity|].
  rewrite Hrel, IH.
  destruct (String.eqb name (param_name param)) eqn:Ename; [|reflexivity].
  apply String.eqb_eq in Ename. rewrite <- Ename, Hnone.
  rewrite (Hparam (eq_sym Ename)). reflexivity.
Qed.

End ExplicitDefault.

(** *** Passing a default by position *)

Section ExplicitPositional.
Variables (name : string) (d : value).

Lemma positional_kinds (q : Param) :
  positional q = true ->
  kind_eqb (param_kind q) VAR_KEYWORD = false
  /\ kind_eqb (param_kind q) VAR_POSITIONAL = false
  /\ kind_eqb (param_kind q) KEYWORD_ONLY = false.
Proof. unfold positional. destruct (param_kind q); cbn; intros; auto; discriminate. Qed.

(** As many positional arguments as there are positional parameters in
    front: the loop uses them up and goes on with whatever follows. *)
Lemma bind_positional_prefix (kwargs : dict) (rest : list Param) (pre : list Param) :
  forall args arguments out,
    length args = length pre ->
    Forall (fun q => positional q = true) pre ->
    bind_positional (pre ++ rest) args kwargs arguments = Return out ->
    exists middle,
      (forall more,
          bind_positional (pre ++ rest) (args ++ more) kwargs arguments
          = bind_positional rest more kwargs middle)
      /\ (forall k, dict_get k arguments <> None -> dict_get k middle <> None).
Proof.
  induction pre as [|q pre IH]; intros args arguments out Hlen Hpos Hbind;
    destruct args as [|arg_val args]; try discriminate Hlen.
  - exists arguments. split; [reflexivity | auto].
  - apply Forall_cons in Hpos as [Hq Hpos].
    apply positional_kinds in Hq as (Hvk & Hvp & Hko).
    cbn [app bind_positional] in Hbind |- *. rewrite Hvk, Hvp, Hko in Hbind.
    cbn [orb] in Hbind.
    destruct (dict_mem (param_name q) kwargs
              && negb (kind_eqb (param_kind q) POSITIONAL_ONLY)) eqn:Edup;
      [discriminate|].
    injection Hlen as Hlen.
    destruct (IH _ _ _ Hlen Hpos Hbind) as (middle & Hmore & Hkeeps).
    exists middle. split.
    + intros more. cbn [app bind_positional].
      rewrite ?Hvk, ?Hvp, ?Hko, ?Edup. cbn [orb]. apply Hmore.
    + intros k Hk. apply Hkeeps. apply dict_get_set_keeps. assumption.
Qed.

(** With no positional argument left the loop hands the parameters to
    the keyword loop, which treats what it is handed as it would have
    treated all of them. *)
Lemma bind_positional_nil (params : list Param) (kwargs arguments arguments' : dict)
    (kwargs_param : option Param) out :
  bind_keywords params kwargs arguments kwargs_param = Return out ->
  exists rest,
    bind_positional params [] kwargs arguments' = Return (arguments', rest)
    /\ forall a kp,
         bind_keywords rest kwargs a kp = bind_keywords params kwargs a kp.
Proof.
  destruct params as [|q params]; intros Hbind;
    [exists []; split; reflexivity|].
  cbn [bind_keywords] in Hbind. cbn [bind_positional]. unfold dict_mem.
  destruct (param_kind q) eqn:Ekind;
    cbn [kind_eqb kind_rank Nat.eqb orb] in Hbind |- *.
  - (* positional only *)
    destruct (dict_get (param_name q) kwargs); [discriminate|].
    destruct (has_default q); [|discriminate].
    exists (q :: params). split; reflexivity.
  - (* positional or keyword *)
    exists (q :: params). split; [|reflexivity].
    destruct (dict_get (param_name q) kwargs); [reflexivity|].
    destruct (has_default q); [reflexivity | discriminate].
  - (* variadic positional *)
    exists params. split; [reflexivity|]. intros a kp.
    cbn [bind_keywords]. rewrite Ekind. reflexivity.
  - (* keyword only *)
    exists (q :: params). split; [|reflexivity].
    destruct (dict_get (param_name q) kwargs); [reflexivity|].
    destruct (has_default q); [reflexivity | discriminate].
  - (* variadic keyword *)
    exists (q :: params). split; [|reflexivity].
    destruct (dict_get (param_name q) kwargs); reflexivity.
Qed.

(** A call that stops just before the parameter called [name] binds, with
    [d] added as the next positional argument, the same arguments and [d]
    to [name]. *)
Lemma bind_extra_positional (sig : Signature) (args : list value)
    (kwargs b : dict) (pre post : list Param) (p : Param) :
  parameters sig = pre ++ p :: post ->
  param_name p = name ->
  positional p = true ->
  Forall (fun q => positional q = true) pre ->
  length args = length pre ->
  NoDup (param_name <$> parameters sig) ->
  bind sig args kwargs = Return b ->
  dict_get name b = None ->
  exists b',
    bind sig (args ++ [d]) kwargs = Return b'
    /\ with_default name d b b'.
Proof.
  intros Hsplit Hname Hp Hpre Hlen Hnodup Hbind Hnone.
  unfold bind in Hbind |- *. rewrite Hsplit in Hbind |- *.
  destruct (bind_positional (pre ++ p :: post) args kwargs [])
    as [[arguments rest]|e] eqn:Epos; cbn [mbind result_bind] in Hbind;
    [|discriminate].
  destruct (bind_keywords rest kwargs arguments None)
    as [[[out_arguments out_kwargs] out_param]|e] eqn:Ekw;
    cbn [mbind result_bind] in Hbind; [|discriminate].
  assert (dict_get name out_arguments = None
          /\ forall q, out_kwargs <> [] -> out_param = Some q ->
                       param_name q <> name) as [Hout Hq].
  { destruct out_kwargs as [|[k v] out_kwargs].
    - injection Hbind as <-. split; [assumption|]. congruence.
    - destruct out_param as [q|]; [|discriminate]. injection Hbind as <-.
      assert (param_name q <> name) as Hne.
      { intros Hqname. rewrite <- Hqname, dict_get_set_eq in Hnone. discriminate. }
      split; [|congruence].
      rewrite dict_get_set_ne in Hnone by congruence. assumption. }
  destruct (bind_positional_prefix kwargs (p :: post) pre args [] _ Hlen Hpre Epos)
    as (middle & Hmore & _).
  pose proof (Hmore []) as Hnil. rewrite app_nil_r, Epos in Hnil.
  rewrite (Hmore [d]).
  apply positional_kinds in Hp as (Hvk & Hvp & Hko).
  cbn [bind_positional] in Hnil |- *. rewrite Hvp in Hnil.
  rewrite Hvk, Hvp, Hko. cbn [orb].
  (* In the call as it was the parameter is left to the keyword loop. *)
  assert (arguments = middle /\ rest = p :: post) as [-> ->].
  { repeat match type of Hnil with
           | _ = (if ?c then _ else _) => destruct c
           end; try discriminate; injection Hnil as -> ->; auto. }
  cbn [bind_keywords] in Ekw. rewrite Hvk, Hvp, Hname in Ekw.
  destruct (dict_get name kwargs) as [arg_val|] eqn:Hget.
  { exfalso.
    destruct (kind_eqb (param_kind p) POSITIONAL_ONLY); [discriminate|].
    eapply bind_keywords_keeps in Ekw; [apply Ekw; exact Hout|].
    rewrite dict_get_set_eq. discriminate. }
  destruct (has_default p); [|discriminate].
  unfold dict_mem. rewrite Hname, Hget. cbn [andb].
  assert (dict_get name middle = None) as Hmiddle.
  { destruct (dict_get name middle) eqn:Hhas; [|reflexivity].
    exfalso. eapply bind_keywords_keeps in Ekw; [apply Ekw; exact Hout|].
    rewrite Hhas. discriminate. }
  destruct (bind_positional_nil post kwargs middle (dict_set name d middle)
              None _ Ekw) as (rest' & Hpos' & Hsame).
  rewrite Hpos'. cbn [mbind result_bind]. rewrite Hsame.
  assert (Forall (fun q => param_name q <> name) post) as Hpost.
  { rewrite Hsplit, fmap_app in Hnodup.
    apply NoDup_app in Hnodup as (_ & _ & Hnodup).
    cbn [fmap list_fmap] in Hnodup. apply NoDup_cons in Hnodup as [Hfirst _].
    apply Forall_forall. intros q Hqin Hqname. apply Hfirst.
    rewrite Hname, <- Hqname. apply list_elem_of_fmap. eauto. }
  destruct (bind_keywords_with_default name d post _ _ _ _ _ _ _ Hpost
              (with_default_new name d middle Hmiddle) Ekw)
    as (out_arguments' & Hkw' & Hrel).
  rewrite Hkw'. cbn [mbind result_bind].
  destruct out_kwargs as [|[k v] out_kwargs].
  - injection Hbind as <-. eauto.
  - destruct out_param as [q|]; [|discriminate]. injection Hbind as <-.
    eexists. split; [reflexivity|].
    apply with_default_set; [|assumption]. apply Hq; [discriminate | reflexivity].
Qed.

End ExplicitPositional.

Lemma NoDup_fmap_eq {A B} (f : A -> B) (l : list A) (x y : A) :
  NoDup (f <$> l) -> x ∈ l -> y ∈ l -> f x = f y -> x = y.
Proof.
  induction l as [|z l IH]; intros Hnodup Hx Hy Hf.
  - apply elem_of_nil in Hx. contradiction.
  - cbn [fmap list_fmap] in Hnodup. fold (fmap f l) in Hnodup.
    apply NoDup_cons in Hnodup as [Hz Hnodup].
    apply elem_of_cons in Hx as [->|Hx]; apply elem_of_cons in Hy as [->|Hy];
      try reflexivity.
    + exfalso. apply Hz. rewrite Hf. apply list_elem_of_fmap. eauto.
    + exfalso. apply Hz. rewrite <- Hf. apply list_elem_of_fmap. eauto.
    + auto.
Qed.

(** ** Running computations over the world *)

Lemma M_bind_Return {A B} (c : M A) (f : A -> M B) (w w' : world) (a : A) :
  c w = (Return a, w') -> (c ≫= f) w = f a w'.
Proof. intros Hc. unfold mbind, M_bind. rewrite Hc. reflexivity. Qed.

Lemma M_bind_Raise {A B} (c : M A) (f : A -> M B) (w w' : world) (e : exn) :
  c w = (Raise e, w') -> (c ≫= f) w = (Raise e, w').
Proof. intros Hc. unfold mbind, M_bind. rewrite Hc. reflexivity. Qed.

Lemma M_bind_run {A B} (c : M A) (f : A -> M B) (w : world) :
  (c ≫= f) w =
  match c w with
  | (Return a, w') => f a w'
  | (Raise e, w') => (Raise e, w')
  end.
Proof. reflexivity. Qed.

Lemma M_bind_lift {A B} (r : result A) (f : A -> M B) (w : world) :
  (lift r ≫= f) w =
  match r with Return a => f a w | Raise e => (Raise e, w) end.
Proof. unfold mbind, M_bind, lift. destruct r; reflexivity. Qed.

Lemma read_prompt_ok (self : loc) (this : BaseChatPromptFunction) (w : world) :
  heap w !! self = Some (Prompt this) -> read_prompt self w = (Return this, w).
Proof. intros Hself. unfold read_prompt. rewrite Hself. reflexivity. Qed.

Lemma read_list_ok (l : loc) (items : list value) (w : world) :
  heap w !! l = Some (List items) -> read_list l w = (Return items, w).
Proof. intros Hl. unfold read_list. rewrite Hl. reflexivity. Qed.

Lemma read_function_ok (func : loc) (f : function) (w : world) :
  heap w !! func = Some (Function f) -> read_function func w = (Return f, w).
Proof. intros Hf. unfold read_function. rewrite Hf. reflexivity. Qed.

(** A read of the heap leaves the world as it is. *)
Lemma read_prompt_world (self : loc) (w : world) : (read_prompt self w).2 = w.
Proof. unfold read_prompt. destruct (heap w !! self) as [[| |]|]; reflexivity. Qed.


Section CallFacts.
Context {protocol : ObjectProtocol} {policy : RetryPolicy}.

Lemma model_ok (self : loc) (this : BaseChatPromptFunction) (w : world) :
  heap w !! self = Some (Prompt this) ->
  model self w = (Return (effective_model this w), w).
Proof.
  intros Hself. unfold model.
  rewrite (M_bind_Return _ _ _ _ _ (read_prompt_ok _ _ _ Hself)).
  unfold effective_model, model_or_default, get_chat_model.
  destruct (_max_retries this =? 0)%Z, (_model this); reflexivity.
Qed.

Lemma format_ok (self : loc) (this : BaseChatPromptFunction)
    (args : list value) (kwargs : dict) (w : world) :
  heap w !! self = Some (Prompt this) ->
  format self args kwargs w = (rendered this args kwargs, w).
Proof.
  intros Hself. unfold format, rendered.
  rewrite (M_bind_Return _ _ _ _ _ (read_prompt_ok _ _ _ Hself)).
  rewrite M_bind_lift.
  destruct (bind (_signature this) args kwargs); reflexivity.
Qed.

Lemma format_world (self : loc) (args : list value) (kwargs : dict)
    (w : world) :
  (format self args kwargs w).2 = w.
Proof.
  unfold format, read_prompt, mbind, M_bind, lift.
  destruct (heap w !! self) as [[| |this]|]; try reflexivity.
  destruct (bind (_signature this) args kwargs); reflexivity.
Qed.

End CallFacts.

(** ** Backend calls *)

Lemma only_calls_refl (P : call_record -> Prop) (w : world) : only_calls P w w.
Proof.
  repeat split. exists []. split; [symmetry; apply app_nil_r | constructor].
Qed.

Lemma only_calls_trans (P : call_record -> Prop) (w1 w2 w3 : world) :
  only_calls P w1 w2 -> only_calls P w2 w3 -> only_calls P w1 w3.
Proof.
  intros (Hh1 & Hd1 & new1 & Hc1 & HP1) (Hh2 & Hd2 & new2 & Hc2 & HP2).
  repeat split; [congruence | congruence |].
  exists (new1 ++ new2). split.
  - rewrite Hc2, Hc1. symmetry. apply app_assoc.
  - apply Forall_app. split; assumption.
Qed.

Lemma only_calls_weaken (P Q : call_record -> Prop) (w w' : world) :
  (forall r, P r -> Q r) -> only_calls P w w' -> only_calls Q w w'.
Proof.
  intros HPQ (Hh & Hd & new & Hc & HP).
  repeat split; [assumption | assumption |].
  exists new. split; [assumption|]. eapply Forall_impl; eassumption.
Qed.

Section BackendFacts.
Context {protocol : ObjectProtocol} {policy : RetryPolicy}.

Lemma invoke_only_calls (id : nat) answer (req : request) (w : world) :
  only_calls (carries (req_functions req) (req_output_types req) (req_stop req))
    w (invoke id answer req w).2.
Proof.
  unfold invoke. cbn [snd]. repeat split; cbn [heap default_chat_model calls].
  eexists. split; [reflexivity|].
  constructor; [|constructor]. repeat split.
Qed.

(** The retrying proxy changes the messages only. *)
Lemma retry_loop_only_calls (call : request -> M Reply)
    (fs rts : list value) (stop : option (list value)) :
  (forall req w,
      req_functions req = fs -> req_output_types req = rts ->
      req_stop req = stop ->
      only_calls (carries fs rts stop) w (call req w).2) ->
  forall retries req w,
    req_functions req = fs -> req_output_types req = rts ->
    req_stop req = stop ->
    only_calls (carries fs rts stop) w (retry_loop call retries req w).2.
Proof.
  intros Hcall retries.
  induction retries as [|n IH]; intros req w Hfs Hrts Hstop;
    cbn [retry_loop]; specialize (Hcall req w Hfs Hrts Hstop);
    destruct (call req w) as [[reply|e] w'] eqn:Ecall; cbn [snd] in Hcall |- *;
    try assumption.
  - destruct e; assumption.
  - destruct e; try assumption.
    eapply only_calls_trans; [eassumption|].
    apply IH; assumption.
Qed.

Lemma complete_with_only_calls (suspending : bool) (m : ChatModel) :
  forall (req : request) (w : world),
  only_calls (carries (req_functions req) (req_output_types req) (req_stop req))
    w (complete_with suspending m req w).2.
Proof.
  induction m as [id complete acomplete|chat_model IH max_retries];
    intros req w; cbn [complete_with].
  - apply invoke_only_calls.
  - apply retry_loop_only_calls; [|reflexivity..].
    intros req' w' <- <- <-. apply IH.
Qed.

Lemma retry_loop_ext (call1 call2 : request -> M Reply) :
  (forall req w, call1 req w = call2 req w) ->
  forall retries req w,
    retry_loop call1 retries req w = retry_loop call2 retries req w.
Proof.
  intros Hcall retries.
  induction retries as [|n IH]; intros req w; cbn [retry_loop];
    rewrite Hcall; destruct (call2 req w) as [[reply|[]] w']; auto.
Qed.

(** A handle whose backends answer alike in both forms cannot tell
    [acomplete] from [complete]. *)
Lemma complete_with_modes_agree (m : ChatModel) :
  modes_agree m ->
  forall req w, acomplete m req w = complete m req w.
Proof.
  unfold acomplete, complete.
  induction m as [id c a|chat_model IH max_retries];
    cbn [modes_agree complete_with]; intros Hagree req w.
  - unfold invoke. rewrite Hagree. reflexivity.
  - apply retry_loop_ext. intros req' w'. apply IH. assumption.
Qed.






End BackendFacts.

(** ** Calling a prompt function *)

Lemma read_optional_list_world (l : option loc) (w : world) :
  (read_optional_list l w).2 = w.
Proof.
  destruct l as [l|]; [|reflexivity].
  unfold read_optional_list, mbind, M_bind, read_list.
  destruct (heap w !! l) as [[| |]|]; reflexivity.
Qed.

Section PromptFacts.
Context {protocol : ObjectProtocol} {policy : RetryPolicy}.

(** Both [__call__] methods have the same shape: everything before the
    backend call leaves the world alone, and the backend call is made with
    the lists of the prompt function. *)
Lemma call_with_only_calls (suspending : bool) (self : loc)
    (this : BaseChatPromptFunction) (args : list value) (kwargs : dict)
    (w : world) :
  heap w !! self = Some (Prompt this) ->
  only_calls (sent_from self w) w
    ((_ ← lift (bind (_signature this) args kwargs);
      chat_model ← model self;
      messages ← format self args kwargs;
      fs ← read_list (_functions this);
      output_types ← read_list (_return_types this);
      stop ← read_optional_list (_stop this);
      message ← complete_with suspending chat_model
        {| req_messages := messages; req_functions := fs;
           req_output_types := output_types; req_stop := stop |};
      mret (reply_content message)) w).2.
Proof.
  intros Hself. rewrite M_bind_lift.
  destruct (bind (_signature this) args kwargs) as [bound|e];
    [|apply only_calls_refl].
  rewrite M_bind_run, (model_ok _ _ _ Hself).
  rewrite M_bind_run, (format_ok _ _ _ _ _ Hself).
  destruct (rendered this args kwargs) as [messages|e];
    [|apply only_calls_refl].
  rewrite M_bind_run. unfold read_list at 1.
  destruct (heap w !! _functions this) as [[fs| |]|] eqn:Hfs;
    try apply only_calls_refl.
  rewrite M_bind_run. unfold read_list at 1.
  destruct (heap w !! _return_types this) as [[rts| |]|] eqn:Hrts;
    try apply only_calls_refl.
  rewrite M_bind_run.
  pose proof (read_optional_list_world (_stop this) w) as Hstop.
  destruct (read_optional_list (_stop this) w) as [[stop|e] w0];
    cbn [snd] in Hstop; subst w0; [|apply only_calls_refl].
  rewrite M_bind_run.
  match goal with
  | |- context [complete_with ?s ?m ?req w] =>
      pose proof (complete_with_only_calls s m req w) as Hcalls;
      destruct (complete_with s m req w) as [[message|e] w']
  end; cbn [snd req_functions req_output_types req_stop] in Hcalls |- *;
    (eapply only_calls_weaken; [|exact Hcalls]);
    intros r (Hr1 & Hr2 & _); exists this; rewrite Hr1, Hr2; auto.
Qed.

Lemma call_with_run (suspending : bool) (self : loc)
    (this : BaseChatPromptFunction) (args : list value) (kwargs : dict)
    (w : world) :
  heap w !! self = Some (Prompt this) ->
  (_ ← lift (bind (_signature this) args kwargs);
   chat_model ← model self;
   messages ← format self args kwargs;
   fs ← read_list (_functions this);
   output_types ← read_list (_return_types this);
   stop ← read_optional_list (_stop this);
   message ← complete_with suspending chat_model
     {| req_messages := messages; req_functions := fs;
        req_output_types := output_types; req_stop := stop |};
   mret (reply_content message)) w
  = run_call suspending this args kwargs w.
Proof.
  intros Hself. unfold run_call. rewrite !M_bind_lift. unfold rendered.
  destruct (bind (_signature this) args kwargs) as [bound|e] eqn:Hbind;
    [|reflexivity].
  cbn [mbind result_bind].
  rewrite M_bind_run, (model_ok _ _ _ Hself).
  rewrite M_bind_run, (format_ok _ _ _ _ _ Hself). unfold rendered.
  rewrite Hbind. cbn [mbind result_bind]. reflexivity.
Qed.

Lemma call_run (self : loc) (this : BaseChatPromptFunction)
    (args : list value) (kwargs : dict) (w : world) :
  heap w !! self = Some (Prompt this) ->
  call self args kwargs w =
  run_call match class_of this with
           | ChatPromptFunction => false
           | AsyncChatPromptFunction => true
           end this args kwargs w.
Proof.
  intros Hself. unfold call.
  rewrite (M_bind_Return _ _ _ _ _ (read_prompt_ok _ _ _ Hself)).
  destruct (class_of this);
    unfold ChatPromptFunction_call, AsyncChatPromptFunction_call;
    rewrite (M_bind_Return _ _ _ _ _ (read_prompt_ok _ _ _ Hself));
    apply call_with_run; assumption.
Qed.

Lemma call_only_calls (self : loc) (args : list value) (kwargs : dict)
    (w : world) :
  only_calls (sent_from self w) w (call self args kwargs w).2.
Proof.
  unfold call. unfold mbind at 1, M_bind at 1, read_prompt at 1.
  destruct (heap w !! self) as [[| |this]|] eqn:Hself;
    try apply only_calls_refl.
  destruct (class_of this);
    unfold ChatPromptFunction_call, AsyncChatPromptFunction_call;
    rewrite (M_bind_Return _ _ _ _ _ (read_prompt_ok _ _ _ Hself));
    apply call_with_only_calls; assumption.
Qed.

End PromptFacts.

(** ** Construction *)

Lemma grows_refl (w : world) : grows w w.
Proof. repeat split. auto. Qed.

Lemma grows_trans (w1 w2 w3 : world) : grows w1 w2 -> grows w2 w3 -> grows w1 w3.
Proof.
  intros (Hh1 & Hd1 & Hc1) (Hh2 & Hd2 & Hc2).
  repeat split; [auto | congruence | congruence].
Qed.

Lemma alloc_fresh (o : object) (w : world) :
  exists l,
    alloc o w = (Return l, set_heap (<[l := o]> (heap w)) w)
    /\ heap w !! l = None.
Proof.
  exists (fresh (dom (heap w))). split; [reflexivity|].
  apply not_elem_of_dom. apply is_fresh.
Qed.

Lemma alloc_grows (o : object) (w : world) :
  exists l w',
    alloc o w = (Return l, w')
    /\ heap w !! l = None /\ heap w' !! l = Some o /\ grows w w'.
Proof.
  destruct (alloc_fresh o w) as (l & Halloc & Hfresh).
  exists l, (set_heap (<[l := o]> (heap w)) w).
  split; [assumption|]. split; [assumption|].
  split; [apply lookup_insert_eq|].
  repeat split. intros l' o' Hl'. cbn [set_heap heap].
  rewrite lookup_insert_ne; [assumption|]. congruence.
Qed.

Section ConstructionFacts.
Context {protocol : ObjectProtocol} {policy : RetryPolicy}.

Lemma functions_or_empty_ok (functions : option loc) (w : world) :
  list_or_none functions w ->
  exists fs w' items,
    functions_or_empty functions w = (Return fs, w')
    /\ grows w w'
    /\ heap w' !! fs = Some (List items)
    /\ match functions with
       | Some l => heap w !! l = Some (List items)
       | None => items = []
       end.
Proof.
  destruct functions as [l|]; cbn [list_or_none functions_or_empty].
  - intros [items Hl]. rewrite M_bind_run, (read_list_ok _ _ _ Hl).
    destruct items as [|item items].
    + destruct (alloc_grows (List []) w) as (fs & w' & Halloc & _ & Hfs & Hgrows).
      exists fs, w', []. auto.
    + exists l, w, (item :: items). split; [reflexivity|].
      split; [apply grows_refl|]. auto.
  - intros _.
    destruct (alloc_grows (List []) w) as (fs & w' & Halloc & _ & Hfs & Hgrows).
    exists fs, w', []. auto.
Qed.

(** The constructor succeeds on a valid parameter list and leaves a new
    prompt function on the heap, with its output types in a list of its
    own. *)
Lemma init_ok (cls : prompt_class) (name : string) (params : list Param)
    (return_type : type_descriptor) (messages : list Message)
    (functions stop : option loc) (max_retries : Z) (model : option ChatModel)
    (sig : Signature) (w : world) :
  Signature_init params return_type = Return sig ->
  list_or_none functions w ->
  exists self w' fs rts items,
    __init__ cls name params return_type messages functions stop max_retries
      model w = (Return self, w')
    /\ grows w w'
    /\ heap w !! self = None
    /\ heap w' !! self
       = Some (Prompt {| class_of := cls; _name := name; _signature := sig;
                         _messages := messages; _functions := fs;
                         _stop := stop; _max_retries := max_retries;
                         _model := model; _return_types := rts;
                         wrapper := None |})
    /\ heap w' !! rts = Some (List (VType <$> split_union_type return_type))
    /\ heap w !! rts = None
    /\ heap w' !! fs = Some (List items)
    /\ match functions with
       | Some l => heap w !! l = Some (List items)
       | None => items = []
       end.
Proof.
  intros Hsig Hfunctions. unfold __init__. rewrite M_bind_lift, Hsig.
  destruct (functions_or_empty_ok functions w Hfunctions)
    as (fs & w1 & items & Hfs & Hgrows1 & Hitems & Hgiven).
  rewrite (M_bind_Return _ _ _ _ _ Hfs).
  destruct (alloc_grows (List (VType <$> split_union_type return_type)) w1)
    as (rts & w2 & Hrts & Hfresh2 & Hat2 & Hgrows2).
  rewrite (M_bind_Return _ _ _ _ _ Hrts).
  match goal with
  | |- context [alloc ?o w2] =>
      destruct (alloc_grows o w2) as (self & w3 & Hself & Hfresh3 & Hat3 & Hgrows3)
  end.
  exists self, w3, fs, rts, items.
  split; [exact Hself|].
  split; [eapply grows_trans; [exact Hgrows1|]; eapply grows_trans; eassumption|].
  assert (forall l, heap w3 !! l = None -> heap w !! l = None) as Hback.
  { intros l Hl. destruct (heap w !! l) as [o|] eqn:Hwl; [|reflexivity].
    apply Hgrows1 in Hwl. apply Hgrows2 in Hwl. apply Hgrows3 in Hwl. congruence. }
  assert (forall l, heap w2 !! l = None -> heap w !! l = None) as Hback2.
  { intros l Hl. destruct (heap w !! l) as [o|] eqn:Hwl; [|reflexivity].
    apply Hgrows1 in Hwl. apply Hgrows2 in Hwl. congruence. }
  assert (forall l, heap w1 !! l = None -> heap w !! l = None) as Hback1.
  { intros l Hl. destruct (heap w !! l) as [o|] eqn:Hwl; [|reflexivity].
    apply Hgrows1 in Hwl. congruence. }
  split; [apply Hback2; assumption|].
  split; [exact Hat3|].
  split; [apply Hgrows3; exact Hat2|].
  split; [apply Hback1; assumption|].
  split; [apply Hgrows3, Hgrows2; exact Hitems|].
  exact Hgiven.
Qed.



(** A sequence of invocations makes backend calls only, all of them with
    the lists the prompt function holds. *)
Lemma call_all_configured (self : loc) (this : BaseChatPromptFunction)
    (fs rts : list value) (invocations : list (list value * dict)) :
  forall w,
    heap w !! self = Some (Prompt this) ->
    heap w !! _functions this = Some (List fs) ->
    heap w !! _return_types this = Some (List rts) ->
    only_calls (configured fs rts) w (call_all self invocations w).
Proof.
  induction invocations as [|[args kwargs] rest IH]; intros w Hself Hfs Hrts;
    cbn [call_all]; [apply only_calls_refl|].
  pose proof (call_only_calls self args kwargs w) as Hcall.
  assert (only_calls (configured fs rts) w (call self args kwargs w).2) as Hstep.
  { eapply only_calls_weaken; [|exact Hcall].
    intros r (this' & Hself' & Hfs' & Hrts').
    assert (this' = this) as -> by congruence.
    split; congruence. }
  eapply only_calls_trans; [exact Hstep|].
  destruct Hstep as (Hheap & _).
  apply IH; rewrite Hheap; assumption.
Qed.

End ConstructionFacts.

(** ** The claims *)

Section Claims.
Context {protocol : ObjectProtocol} {policy : RetryPolicy}.

(** C1.  When every parameter of the signature is required and the call
    supplies fewer arguments than there are parameters, calling the prompt
    function, blocking or suspending, raises a [TypeError] of the binding
    category at once: the world after the call is the world before it, so
    no backend has received a call. *)
Theorem too_few_arguments_raise_before_backend (self : loc)
    (this : BaseChatPromptFunction) (args : list value) (kwargs : dict)
    (w : world) :
  heap w !! self = Some (Prompt this) ->
  forallb required (parameters (_signature this)) = true ->
  length args + length kwargs < length (parameters (_signature this)) ->
  exists why,
    call self args kwargs w = (Raise (TypeError why), w)
    /\ category (TypeError why) = BindingError
    /\ calls (call self args kwargs w).2 = calls w.
Proof.
  intros Hself Hreq Hfew.
  destruct (bind_too_few _ _ _ Hreq Hfew) as [why Hbind].
  exists why.
  assert (call self args kwargs w = (Raise (TypeError why), w)) as Hcall.
  { unfold call.
    rewrite (M_bind_Return _ _ _ _ _ (read_prompt_ok _ _ _ Hself)).
    destruct (class_of this);
      unfold ChatPromptFunction_call, AsyncChatPromptFunction_call;
      rewrite (M_bind_Return _ _ _ _ _ (read_prompt_ok _ _ _ Hself));
      rewrite M_bind_lift, Hbind; reflexivity. }
  rewrite Hcall. repeat split.
Qed.

(** C4.  For every string [s], the escaped [s] rendered as a template is
    [s] again, whatever the keyword arguments are, and so is a message
    whose content template is the escaped [s]: a doubled brace comes out
    as one brace and is never looked up as a placeholder. *)
Theorem escaped_text_renders_unchanged (s : string) (kwargs : dict) (r : role) :
  str_format (escape_braces s) kwargs = Return s
  /\ Message_format {| msg_role := r; msg_content := Text (escape_braces s) |}
       kwargs
     = Return {| msg_role := r; msg_content := Text s |}.
Proof.
  split; [apply str_format_escape_braces|].
  unfold Message_format. cbn [msg_content msg_role].
  rewrite str_format_escape_braces. reflexivity.
Qed.

(** C6.  Take a prompt function as an instance of the blocking class at
    [blocking] and as an instance of the suspending class at [suspending],
    in a world whose backends answer alike in both forms.  For the same
    arguments the two calls have the same outcome, the same value or the
    same exception, and leave the same world; and a value that is returned
    is the content of the reply of the chat model. *)
Theorem blocking_and_suspending_agree (blocking suspending : loc)
    (this : BaseChatPromptFunction) (args : list value) (kwargs : dict)
    (w : world) :
  heap w !! blocking = Some (Prompt (with_class ChatPromptFunction this)) ->
  heap w !! suspending = Some (Prompt (with_class AsyncChatPromptFunction this)) ->
  modes_agree (effective_model this w) ->
  call suspending args kwargs w = call blocking args kwargs w
  /\ (forall v w', call blocking args kwargs w = (Return v, w') ->
        exists req w0 message,
          complete (effective_model this w) req w0 = (Return message, w')
          /\ v = reply_content message).
Proof.
  intros Hb Hs Hagree.
  rewrite (call_run _ _ _ _ _ Hb), (call_run _ _ _ _ _ Hs).
  cbn [with_class class_of].
  unfold run_call, rendered, effective_model.
  cbn [with_class _signature _messages _functions _return_types _stop
       _model _max_retries].
  fold (effective_model this w). fold (rendered this args kwargs).
  rewrite !M_bind_lift.
  destruct (rendered this args kwargs) as [messages|e]; [|split; [reflexivity|discriminate]].
  rewrite !M_bind_run.
  destruct (read_list (_functions this) w) as [[fs|e] w1];
    [|split; [reflexivity|discriminate]].
  rewrite !M_bind_run.
  destruct (read_list (_return_types this) w1) as [[rts|e] w2];
    [|split; [reflexivity|discriminate]].
  rewrite !M_bind_run.
  destruct (read_optional_list (_stop this) w2) as [[stop|e] w3];
    [|split; [reflexivity|discriminate]].
  rewrite !M_bind_run.
  change (complete_with true) with acomplete.
  change (complete_with false) with complete.
  rewrite (complete_with_modes_agree _ Hagree).
  split; [reflexivity|].
  intros v w'.
  destruct (complete (effective_model this w) _ w3) as [[message|e] w4] eqn:Ecall;
    [|discriminate].
  intros [= <- <-]. eauto.
Qed.




(** C10.  The properties [functions] and [return_types] each hand out a
    new list with the items of the stored one.  However that new list is
    changed afterwards, the prompt function and its two lists are what they
    were, and all backend calls of the invocations that follow carry the
    original side-callables and output types. *)
Theorem accessors_return_copies (self : loc) (this : BaseChatPromptFunction)
    (fs rts : list value) (change : list value -> list value)
    (invocations : list (list value * dict)) (w : world) :
  heap w !! self = Some (Prompt this) ->
  heap w !! _functions this = Some (List fs) ->
  heap w !! _return_types this = Some (List rts) ->
  (exists l w',
      functions self w = (Return l, w')
      /\ heap w !! l = None /\ heap w' !! l = Some (List fs)
      /\ let w'' := (list_mutate l change w').2 in
         heap w'' !! l = Some (List (change fs))
         /\ heap w'' !! self = Some (Prompt this)
         /\ heap w'' !! _functions this = Some (List fs)
         /\ heap w'' !! _return_types this = Some (List rts)
         /\ only_calls (configured fs rts) w'' (call_all self invocations w''))
  /\ (exists l w',
      return_types self w = (Return l, w')
      /\ heap w !! l = None /\ heap w' !! l = Some (List rts)
      /\ let w'' := (list_mutate l change w').2 in
         heap w'' !! l = Some (List (change rts))
         /\ heap w'' !! self = Some (Prompt this)
         /\ heap w'' !! _functions this = Some (List fs)
         /\ heap w'' !! _return_types this = Some (List rts)
         /\ only_calls (configured fs rts) w'' (call_all self invocations w'')).
Proof.
  intros Hself Hfs Hrts.
  assert (forall items,
             exists l w',
               alloc (List items) w = (Return l, w')
               /\ heap w !! l = None /\ heap w' !! l = Some (List items)
               /\ let w'' := (list_mutate l change w').2 in
                  heap w'' !! l = Some (List (change items))
                  /\ heap w'' !! self = Some (Prompt this)
                  /\ heap w'' !! _functions this = Some (List fs)
                  /\ heap w'' !! _return_types this = Some (List rts)
                  /\ only_calls (configured fs rts) w''
                       (call_all self invocations w'')) as Hcopy.
  { intros items.
    destruct (alloc_grows (List items) w)
      as (l & w' & Halloc & Hfresh & Hat & Hgrows & _).
    exists l, w'. split; [exact Halloc|]. split; [exact Hfresh|].
    split; [exact Hat|].
    unfold list_mutate. rewrite M_bind_run, (read_list_ok _ _ _ Hat).
    unfold store. cbn [snd set_heap].
    assert (forall l' o, heap w !! l' = Some o ->
              <[l := List (change items)]> (heap w') !! l' = Some o) as Hkeep.
    { intros l' o Hl'. rewrite lookup_insert_ne; [auto|]. congruence. }
    cbv zeta.
    split; [cbn [heap]; apply lookup_insert_eq|].
    split; [cbn [heap]; auto|]. split; [cbn [heap]; auto|].
    split; [cbn [heap]; auto|].
    apply (call_all_configured self this); cbn [heap]; auto. }
  split.
  - unfold functions.
    rewrite (M_bind_Return _ _ _ _ _ (read_prompt_ok _ _ _ Hself)).
    rewrite (M_bind_Return _ _ _ _ _ (read_list_ok _ _ _ Hfs)).
    apply Hcopy.
  - unfold return_types.
    rewrite (M_bind_Return _ _ _ _ _ (read_prompt_ok _ _ _ Hself)).
    rewrite (M_bind_Return _ _ _ _ _ (read_list_ok _ _ _ Hrts)).
    apply Hcopy.
Qed.

(** C9.  Decorating a function object makes an instance of the
    suspending class exactly when the function is a coroutine function and
    of the blocking class otherwise.  The instance is a new object: its
    location was free before and is not that of the function, which is
    still there unchanged; and it carries the name and the documentation of
    the function, together with a reference to it. *)
Theorem chatprompt_makes_matching_wrapper (messages : list Message)
    (functions stop : option loc) (max_retries : Z) (model : option ChatModel)
    (func : loc) (fn : function) (sig : Signature) (w : world) :
  heap w !! func = Some (Function fn) ->
  Signature_init (fn_parameters fn) (fn_return_annotation fn) = Return sig ->
  list_or_none functions w ->
  exists self w' this attrs,
    chatprompt messages functions stop max_retries model func w
    = (Return self, w')
    /\ heap w !! self = None /\ self <> func
    /\ heap w' !! func = Some (Function fn)
    /\ heap w' !! self = Some (Prompt this)
    /\ class_of this
       = (if fn_is_coroutine fn then AsyncChatPromptFunction
          else ChatPromptFunction)
    /\ wrapper this = Some attrs
    /\ __name__ attrs = fn_name fn /\ __doc__ attrs = fn_doc fn
    /\ __wrapped__ attrs = func
    /\ _name this = fn_name fn /\ _signature this = sig
    /\ _messages this = messages /\ _stop this = stop
    /\ _max_retries this = max_retries /\ _model this = model.
Proof.
  intros Hfunc Hsig Hfunctions. unfold chatprompt.
  rewrite (M_bind_Return _ _ _ _ _ (read_function_ok _ _ _ Hfunc)).
  assert (forall cls,
    exists self w' this attrs,
      (prompt_function ←
         __init__ cls (fn_name fn) (fn_parameters fn) (fn_return_annotation fn)
           messages functions stop max_retries model;
       update_wrapper prompt_function func) w = (Return self, w')
      /\ heap w !! self = None /\ self <> func
      /\ heap w' !! func = Some (Function fn)
      /\ heap w' !! self = Some (Prompt this)
      /\ class_of this = cls
      /\ wrapper this = Some attrs
      /\ __name__ attrs = fn_name fn /\ __doc__ attrs = fn_doc fn
      /\ __wrapped__ attrs = func
      /\ _name this = fn_name fn /\ _signature this = sig
      /\ _messages this = messages /\ _stop this = stop
      /\ _max_retries this = max_retries /\ _model this = model) as Hboth.
  { intros cls.
    destruct (init_ok cls (fn_name fn) (fn_parameters fn)
                (fn_return_annotation fn) messages functions stop max_retries
                model sig w Hsig Hfunctions)
      as (self & w1 & fs & rts & items & Hinit & Hgrows & Hfresh & Hself & _).
    rewrite (M_bind_Return _ _ _ _ _ Hinit).
    unfold update_wrapper.
    rewrite (M_bind_Return _ _ _ _ _ (read_prompt_ok _ _ _ Hself)).
    destruct Hgrows as (Hkeep & _).
    rewrite (M_bind_Return _ _ _ _ _
               (read_function_ok _ _ _ (Hkeep _ _ Hfunc))).
    rewrite M_bind_run. unfold store. cbn [mret M_ret].
    assert (self <> func) as Hne by congruence.
    eexists self, _, _, _. split; [reflexivity|].
    split; [exact Hfresh|]. split; [exact Hne|].
    split; [cbn [set_heap heap]; rewrite lookup_insert_ne; auto|].
    split; [cbn [set_heap heap]; apply lookup_insert_eq|].
    cbn. repeat split. }
  destruct (fn_is_coroutine fn); apply Hboth.
Qed.

(** C5.  Let a call bind and leave the parameter [p], whose default is
    [d], unbound.  The same call with [d] passed for [p], by keyword when
    [p] may be passed by keyword and as the next positional argument when
    [p] is the positional parameter the call stopped at, gives [format] the
    same bound arguments and hence the same outcome, the same messages or
    the same exception.  For [f(a: int, b: int = 2) -> int] the call
    [f(1)] binds [a] to 1 and [b] to 2. *)
Theorem omitted_default_is_explicit_default (self : loc)
    (this : BaseChatPromptFunction) (args : list value) (kwargs b : dict)
    (p : Param) (d : value) (w : world) :
  heap w !! self = Some (Prompt this) ->
  NoDup (param_name <$> parameters (_signature this)) ->
  p ∈ parameters (_signature this) ->
  param_default p = Some d ->
  bind (_signature this) args kwargs = Return b ->
  dict_get (param_name p) b = None ->
  (keywordable p = true ->
     bound_arguments (_signature this) args (kwargs ++ [(param_name p, d)])
     = bound_arguments (_signature this) args kwargs
     /\ format self args (kwargs ++ [(param_name p, d)]) w
        = format self args kwargs w)
  /\ (forall pre post,
        parameters (_signature this) = pre ++ p :: post ->
        positional p = true ->
        Forall (fun q => positional q = true) pre ->
        length args = length pre ->
        bound_arguments (_signature this) (args ++ [d]) kwargs
        = bound_arguments (_signature this) args kwargs
        /\ format self (args ++ [d]) kwargs w = format self args kwargs w)
  /\ bound_arguments {| parameters := f_parameters; return_annotation := int |}
       [VInt 1] []
     = Return [("a", VInt 1); ("b", VInt 2)].
Proof.
  intros Hself Hnodup Hp Hd Hbind Hnone.
  assert (Forall (fun q => param_name q = param_name p ->
                           param_default q = Some d)
            (parameters (_signature this))) as Hdefault.
  { apply Forall_forall. intros q Hq Hname.
    rewrite (NoDup_fmap_eq param_name _ q p Hnodup Hq Hp Hname). exact Hd. }
  assert (forall args' kwargs' b',
             bind (_signature this) args' kwargs' = Return b' ->
             with_default (param_name p) d b b' ->
             bound_arguments (_signature this) args' kwargs'
             = bound_arguments (_signature this) args kwargs
             /\ format self args' kwargs' w = format self args kwargs w)
    as Hsame.
  { intros args' kwargs' b' Hbind' Hrel.
    pose proof (apply_defaults_with_default _ _ _ _ _ Hdefault Hrel Hnone)
      as Happly.
    split.
    - unfold bound_arguments. rewrite Hbind, Hbind'. cbn [mbind result_bind].
      rewrite Happly. reflexivity.
    - rewrite !(format_ok _ _ _ _ _ Hself). unfold rendered.
      rewrite Hbind, Hbind'. cbn [mbind result_bind]. rewrite Happly.
      reflexivity. }
  split; [|split; [|reflexivity]].
  - intros Hkw.
    assert (defaulted (param_name p) d (parameters (_signature this))) as Hdef.
    { apply Forall_forall. intros q Hq Hname.
      rewrite (NoDup_fmap_eq param_name _ q p Hnodup Hq Hp Hname). auto. }
    assert (param_name p ∈ param_name <$> parameters (_signature this)) as Hin
      by (apply list_elem_of_fmap; eauto).
    destruct (bind_extra_keyword _ _ _ _ _ _ Hnodup Hin Hdef Hbind Hnone)
      as (b' & Hbind' & Hrel).
    eapply Hsame; eassumption.
  - intros pre post Hsplit Hpos Hpre Hlen.
    destruct (bind_extra_positional (param_name p) d _ _ _ _ _ _ _ Hsplit
                eq_refl Hpos Hpre Hlen Hnodup Hbind Hnone)
      as (b' & Hbind' & Hrel).
    eapply Hsame; eassumption.
Qed.

End Claims.

Lemma too_few_arguments_raise_before_backend_witness :
  exists why,
    call (protocol := plain_objects) (policy := echo_failure) 3 [VInt 1] []
      (sample_world plain_g counting_backend)
    = (Raise (TypeError why), sample_world plain_g counting_backend)
    /\ category (TypeError why) = BindingError
    /\ calls (call (protocol := plain_objects) (policy := echo_failure) 3
                [VInt 1] [] (sample_world plain_g counting_backend)).2
       = calls (sample_world plain_g counting_backend).
Proof.
  apply (too_few_arguments_raise_before_backend 3 plain_g).
  - reflexivity.
  - reflexivity.
  - cbn. lia.
Defined.

Lemma blocking_and_suspending_agree_witness :
  call (protocol := plain_objects) (policy := echo_failure) 4 [VInt 1] []
    (twin_world plain_f counting_backend)
  = call (protocol := plain_objects) (policy := echo_failure) 3 [VInt 1] []
      (twin_world plain_f counting_backend)
  /\ (forall v w',
        call (protocol := plain_objects) (policy := echo_failure) 3 [VInt 1] []
          (twin_world plain_f counting_backend) = (Return v, w') ->
        exists req w0 message,
          complete (policy := echo_failure)
            (effective_model plain_f (twin_world plain_f counting_backend))
            req w0 = (Return message, w')
          /\ v = reply_content message).
Proof.
  apply (blocking_and_suspending_agree 3 4 plain_f).
  - reflexivity.
  - reflexivity.
  - cbn. reflexivity.
Defined.




Lemma accessors_return_copies_witness :
  exists l w',
    functions 3 (sample_world plain_f counting_backend) = (Return l, w')
    /\ heap (list_mutate l (cons (VCallable "other")) w').2 !! l
       = Some (List [VCallable "other"])
    /\ heap (list_mutate l (cons (VCallable "other")) w').2 !! 1
       = Some (List [])
    /\ only_calls (configured [] [VType int])
         (list_mutate l (cons (VCallable "other")) w').2
         (call_all (protocol := plain_objects) (policy := echo_failure) 3
            [([VInt 1], [])]
            (list_mutate l (cons (VCallable "other")) w').2).
Proof.
  destruct (accessors_return_copies
              (protocol := plain_objects) (policy := echo_failure)
              3 plain_f [] [VType int] (cons (VCallable "other"))
              [([VInt 1], [])] (sample_world plain_f counting_backend)
              eq_refl eq_refl eq_refl)
    as [(l & w' & Hcopy & _ & _ & Hl & _ & Hfs & _ & Hcalls) _].
  exists l, w'. exact (conj Hcopy (conj Hl (conj Hfs Hcalls))).
Defined.

Lemma chatprompt_makes_matching_wrapper_witness :
  exists self w' this attrs,
    chatprompt sample_messages None None 0 None 0
      (declared_world counting_backend) = (Return self, w')
    /\ self <> 0
    /\ heap w' !! 0 = Some (Function f)
    /\ heap w' !! self = Some (Prompt this)
    /\ class_of this = ChatPromptFunction
    /\ wrapper this = Some attrs
    /\ __name__ attrs = "f" /\ __doc__ attrs = Some "Add two numbers.".
Proof.
  destruct (chatprompt_makes_matching_wrapper sample_messages None None 0 None
              0 f {| parameters := f_parameters; return_annotation := int |}
              (declared_world counting_backend) eq_refl eq_refl I)
    as (self & w' & this & attrs & Hrun & _ & Hne & Hfunc & Hself & Hcls
        & Hattrs & Hname & Hdoc & _).
  exists self, w', this, attrs.
  exact (conj Hrun (conj Hne (conj Hfunc (conj Hself (conj Hcls
           (conj Hattrs (conj Hname Hdoc))))))).
Defined.

(** ** The model at work *)

(** Decorating [f] in the world where it has just been declared gives the
    sample world, with the prompt function at location 3. *)
Example chatprompt_f :
  chatprompt sample_messages None None 0 None 0 (declared_world counting_backend)
  = (Return 3, sample_world plain_f counting_backend).
Proof. vm_compute. reflexivity. Qed.

Example format_f :
  (format (protocol := plain_objects) 3 [VInt 1] []
     (sample_world plain_f counting_backend)).1
  = Return [ {| msg_role := system; msg_content := Text "You add numbers." |};
             {| msg_role := user; msg_content := Text "What is 1 plus 2?" |} ].
Proof. vm_compute. reflexivity. Qed.

Example call_f :
  (call (protocol := plain_objects) (policy := echo_failure) 3 [VInt 1] []
     (sample_world plain_f counting_backend)).1
  = Return (VInt 0).
Proof. vm_compute. reflexivity. Qed.

Example hello_world :
  str_format (protocol := plain_objects) "Hello {name}" [("name", VStr "World")]
  = Return "Hello World".
Proof. vm_compute. reflexivity. Qed.

Example missing_placeholder :
  str_format (protocol := plain_objects) "Hello {name}" [("a", VInt 1)]
  = Raise (KeyError "name").
Proof. vm_compute. reflexivity. Qed.

Example escaped_then_rendered :
  str_format (protocol := plain_objects) (escape_braces "{a} and }{") []
  = Return "{a} and }{".
Proof. vm_compute. reflexivity. Qed.

Example retried_twice :
  length (calls (call (protocol := plain_objects) (policy := echo_failure) 3
                   [VInt 1] [] (sample_world retrying_f failing_backend)).2)
  = 3.
Proof. vm_compute. reflexivity. Qed.

Example f_1_binds_a_and_b :
  bound_arguments {| parameters := f_parameters; return_annotation := int |}
    [VInt 1] []
  = Return [("a", VInt 1); ("b", VInt 2)].
Proof. reflexivity. Qed.

Example f_unknown_keyword :
  bind {| parameters := f_parameters; return_annotation := int |}
    [VInt 1] [("c", VInt 3)]
  = Raise (TypeError (unexpected_keyword_argument "c")).
Proof. reflexivity. Qed.

Example f_twice_a :
  bind {| parameters := f_parameters; return_annotation := int |}
    [VInt 1] [("a", VInt 3)]
  = Raise (TypeError (multiple_values_for_argument "a")).
Proof. reflexivity. Qed.

Lemma omitted_default_is_explicit_default_witness :
  format (protocol := plain_objects) 3 [VInt 1] [("b", VInt 2)]
    (sample_world plain_f counting_backend)
  = format (protocol := plain_objects) 3 [VInt 1] []
      (sample_world plain_f counting_backend)
  /\ format (protocol := plain_objects) 3 [VInt 1; VInt 2] []
       (sample_world plain_f counting_backend)
     = format (protocol := plain_objects) 3 [VInt 1] []
         (sample_world plain_f counting_backend).
Proof.
  assert (NoDup (param_name <$> f_parameters)) as Hnodup.
  { cbn. constructor; [|constructor; [apply not_elem_of_nil | constructor]].
    intros Hin. apply elem_of_cons in Hin as [Heq|Hin]; [discriminate|].
    apply elem_of_nil in Hin. exact Hin. }
  destruct (omitted_default_is_explicit_default (protocol := plain_objects)
              3 plain_f [VInt 1] [] [("a", VInt 1)]
              {| param_name := "b"; param_kind := POSITIONAL_OR_KEYWORD;
                 param_default := Some (VInt 2) |}
              (VInt 2) (sample_world plain_f counting_backend)
              eq_refl Hnodup
              ltac:(apply elem_of_cons; right; apply elem_of_cons; left; reflexivity)
              eq_refl eq_refl eq_refl)
    as (Hkeyword & Hposition & _).
  split.
  - apply Hkeyword. reflexivity.
  - eapply (Hposition
              [{| param_name := "a"; param_kind := POSITIONAL_OR_KEYWORD;
                  param_default := None |}] []).
    + reflexivity.
    + reflexivity.
    + constructor; [reflexivity | constructor].
    + reflexivity.
Defined.

(** * Further properties *)

(** ** Escaping *)

Lemma append_cons (c : ascii) (s t : string) :
  String c s +:+ t = String c (s +:+ t).
Proof. reflexivity. Qed.

Lemma append_length (s t : string) :
  String.length (s +:+ t) = String.length s + String.length t.
Proof.
  induction s as [|c s IH]; [reflexivity|].
  rewrite append_cons. cbn [String.length]. rewrite IH. reflexivity.
Qed.

Lemma escape_braces_length_exact (s : string) :
  String.length (escape_braces s) = String.length s + count_braces s.
Proof.
  induction s as [|c s IH]; [reflexivity|].
  rewrite escape_braces_cons. cbn [count_braces String.length].
  destruct (Ascii.eqb c open_brace); cbn [orb String.length];
    [rewrite IH; lia|].
  destruct (Ascii.eqb c close_brace); cbn [String.length]; rewrite IH; lia.
Qed.

Lemma escape_braces_without_braces (s : string) :
  count_braces s = 0 -> escape_braces s = s.
Proof.
  induction s as [|c s IH]; [reflexivity|].
  cbn [count_braces]. rewrite escape_braces_cons.
  destruct (Ascii.eqb c open_brace); cbn [orb]; [discriminate|].
  destruct (Ascii.eqb c close_brace); [discriminate|].
  cbn [Nat.add]. intros Hzero. rewrite IH by assumption. reflexivity.
Qed.

(** X1.  Escaping goes through concatenation: a text may be escaped piece
    by piece. *)
Theorem escape_braces_app (s t : string) :
  escape_braces (s +:+ t) = escape_braces s +:+ escape_braces t.
Proof.
  induction s as [|c s IH]; [reflexivity|].
  rewrite append_cons, !escape_braces_cons, IH.
  destruct (Ascii.eqb c open_brace); [reflexivity|].
  destruct (Ascii.eqb c close_brace); reflexivity.
Qed.

(** X2.  Escaping loses nothing: two texts have the same escaped form
    only when they are the same text. *)
Theorem escape_braces_inj (s t : string) :
  escape_braces s = escape_braces t <-> s = t.
Proof.
  split; [|intros ->; reflexivity].
  intros Heq.
  pose proof (str_format_escape_braces (protocol := plain_objects) s []) as Hs.
  pose proof (str_format_escape_braces (protocol := plain_objects) t []) as Ht.
  rewrite Heq in Hs. rewrite Hs in Ht. injection Ht as ->. reflexivity.
Qed.

(** X3.  Escaping adds one character for every brace of the text, and so
    leaves exactly the texts without braces as they are. *)
Theorem escape_braces_grows_by_braces (s : string) :
  String.length (escape_braces s) = String.length s + count_braces s
  /\ (escape_braces s = s <-> count_braces s = 0).
Proof.
  split; [apply escape_braces_length_exact|]. split.
  - intros Hfix. pose proof (escape_braces_length_exact s) as Hlen.
    rewrite Hfix in Hlen. lia.
  - apply escape_braces_without_braces.
Qed.

Section EscapedPrefix.
Context {protocol : ObjectProtocol}.

Lemma markup_escaped_prefix expand kwargs (t : string) (s : string) :
  forall fuel,
    String.length (escape_braces s +:+ t) <= fuel ->
    markup expand kwargs fuel (escape_braces s +:+ t)
    = (out ← markup expand kwargs (String.length t) t; Return (s +:+ out)).
Proof.
  induction s as [|c s IH]; intros fuel Hfuel.
  - change (escape_braces "" +:+ t) with t in Hfuel |- *.
    rewrite (markup_fuel expand kwargs fuel (String.length t) t) by lia.
    destruct (markup expand kwargs (String.length t) t); reflexivity.
  - rewrite escape_braces_cons in Hfuel |- *.
    destruct (Ascii.eqb c open_brace) eqn:Eo.
    + apply Ascii.eqb_eq in Eo. subst c.
      rewrite !append_cons in Hfuel |- *. cbn [String.length] in Hfuel.
      destruct fuel as [|fuel]; [lia|].
      cbn [markup]. change (Ascii.eqb open_brace open_brace) with true.
      cbv iota. rewrite IH by lia.
      destruct (markup expand kwargs (String.length t) t); reflexivity.
    + destruct (Ascii.eqb c close_brace) eqn:Ec.
      * apply Ascii.eqb_eq in Ec. subst c.
        rewrite !append_cons in Hfuel |- *. cbn [String.length] in Hfuel.
        destruct fuel as [|fuel]; [lia|].
        cbn [markup]. rewrite Eo.
        change (Ascii.eqb close_brace close_brace) with true.
        cbv iota. rewrite IH by lia.
        destruct (markup expand kwargs (String.length t) t); reflexivity.
      * rewrite append_cons in Hfuel |- *. cbn [String.length] in Hfuel.
        destruct fuel as [|fuel]; [lia|].
        cbn [markup]. rewrite Eo, Ec. rewrite IH by lia.
        destruct (markup expand kwargs (String.length t) t); reflexivity.
Qed.

(** X4.  An escaped text in front of a template renders to the text as
    it was, followed by what the template renders to; when the template
    fails, so does the whole, with the same exception. *)
Theorem escaped_prefix_renders_verbatim (s t : string) (kwargs : dict) :
  str_format (escape_braces s +:+ t) kwargs
  = (out ← str_format t kwargs; Return (s +:+ out)).
Proof.
  unfold str_format. cbn [build_string]. apply markup_escaped_prefix. lia.
Qed.

End EscapedPrefix.

(** ** What binding accepts and what it yields *)

Lemma dict_get_remove_ne (k k' : string) (kw : dict) :
  k <> k' -> dict_get k (dict_remove k' kw) = dict_get k kw.
Proof.
  intros Hne. induction kw as [|[k0 x] kw IH]; cbn [dict_remove dict_get];
    [reflexivity|].
  destruct (String.eqb k0 k') eqn:E'; cbn [dict_get].
  - apply String.eqb_eq in E'. subst k0.
    destruct (String.eqb k' k) eqn:E; [|reflexivity].
    apply String.eqb_eq in E. congruence.
  - rewrite IH. reflexivity.
Qed.

(** The positional loop leaves a suffix of the parameters; those in front
    of it are bound, but for a variadic positional parameter left empty. *)
Lemma bind_positional_split (kwargs : dict) (args : list value) :
  forall params arguments arguments' rest,
    bind_positional params args kwargs arguments = Return (arguments', rest) ->
    exists pre,
      params = pre ++ rest
      /\ Forall (fun q => dict_get (param_name q) arguments' <> None
                          \/ kind_eqb (param_kind q) VAR_POSITIONAL = true) pre.
Proof.
  induction args as [|arg_val args IH];
    intros params arguments arguments' rest Hbind;
    destruct params as [|param params]; cbn [bind_positional] in Hbind;
    try discriminate.
  - injection Hbind as <- <-. exists []. split; [reflexivity | constructor].
  - destruct (kind_eqb (param_kind param) VAR_POSITIONAL) eqn:Evp.
    { injection Hbind as <- <-. exists [param]. split; [reflexivity|].
      constructor; [auto | constructor]. }
    repeat match type of Hbind with
           | (if ?b then _ else _) = _ => destruct b
           end; try discriminate; injection Hbind as <- <-;
      exists []; (split; [reflexivity | constructor]).
  - destruct (kind_eqb (param_kind param) VAR_KEYWORD
              || kind_eqb (param_kind param) KEYWORD_ONLY); [discriminate|].
    destruct (kind_eqb (param_kind param) VAR_POSITIONAL) eqn:Evp.
    { injection Hbind as <- <-. exists [param]. split; [reflexivity|].
      constructor; [auto | constructor]. }
    destruct (dict_mem (param_name param) kwargs
              && negb (kind_eqb (param_kind param) POSITIONAL_ONLY));
      [discriminate|].
    pose proof Hbind as Hkeeps.
    apply IH in Hbind as (pre & -> & Hpre).
    exists (param :: pre). split; [reflexivity|].
    constructor; [|assumption]. left.
    eapply bind_positional_keeps; [exact Hkeeps|].
    rewrite dict_get_set_eq. discriminate.
Qed.

(** The keyword loop takes away only keywords that name a parameter. *)
Lemma bind_keywords_leftover (params : list Param) (k : string) :
  forall kwargs arguments kwargs_param arguments' kwargs' kwargs_param',
    bind_keywords params kwargs arguments kwargs_param
    = Return (arguments', kwargs', kwargs_param') ->
    dict_get k kwargs <> None ->
    k ∈ param_name <$> params \/ dict_get k kwargs' <> None.
Proof.
  induction params as [|param params IH];
    intros kwargs arguments kwargs_param arguments' kwargs' kwargs_param' Hbind Hk;
    cbn [bind_keywords] in Hbind.
  - injection Hbind as <- <- <-. auto.
  - assert (forall kw a kp,
              bind_keywords params kw a kp
              = Return (arguments', kwargs', kwargs_param') ->
              dict_get k kw <> None ->
              k ∈ param_name <$> param :: params \/ dict_get k kwargs' <> None)
      as Hstep.
    { intros kw a kp Hrec Hkw.
      destruct (IH _ _ _ _ _ _ Hrec Hkw) as [Hin|Hleft]; [|auto].
      left. cbn [fmap list_fmap]. apply elem_of_cons. auto. }
    destruct (kind_eqb (param_kind param) VAR_KEYWORD); [eauto|].
    destruct (kind_eqb (param_kind param) VAR_POSITIONAL); [eauto|].
    destruct (dict_get (param_name param) kwargs) eqn:Hget.
    + destruct (kind_eqb (param_kind param) POSITIONAL_ONLY); [discriminate|].
      destruct (String.eqb k (param_name param)) eqn:Ek.
      * apply String.eqb_eq in Ek. left. cbn [fmap list_fmap].
        apply elem_of_cons. auto.
      * apply String.eqb_neq in Ek. eapply Hstep; [exact Hbind|].
        rewrite dict_get_remove_ne; assumption.
    + destruct (has_default param); [eauto | discriminate].
Qed.

(** The parameter the keyword loop remembers for the variadic keyword
    arguments is the one it was given or one it went through. *)
Lemma bind_keywords_param (params : list Param) :
  forall kwargs arguments kwargs_param arguments' kwargs' q,
    bind_keywords params kwargs arguments kwargs_param
    = Return (arguments', kwargs', Some q) ->
    kwargs_param = Some q
    \/ (q ∈ params /\ kind_eqb (param_kind q) VAR_KEYWORD = true).
Proof.
  induction params as [|param params IH];
    intros kwargs arguments kwargs_param arguments' kwargs' q Hbind;
    cbn [bind_keywords] in Hbind.
  - injection Hbind as <- <- <-. auto.
  - assert (forall kw a,
              bind_keywords params kw a kwargs_param
              = Return (arguments', kwargs', Some q) ->
              kwargs_param = Some q
              \/ (q ∈ param :: params
                  /\ kind_eqb (param_kind q) VAR_KEYWORD = true)) as Hstep.
    { intros kw a Hrec. apply IH in Hrec as [Hsame|[Hin Hkind]]; [auto|].
      right. split; [apply elem_of_cons; auto | assumption]. }
    destruct (kind_eqb (param_kind param) VAR_KEYWORD) eqn:Evk.
    + apply IH in Hbind as [[= ->]|[Hin Hkind]]; right;
        (split; [apply elem_of_cons; auto | assumption]).
    + destruct (kind_eqb (param_kind param) VAR_POSITIONAL); [eauto|].
      destruct (dict_get (param_name param) kwargs).
      * destruct (kind_eqb (param_kind param) POSITIONAL_ONLY);
          [discriminate | eauto].
      * destruct (has_default param); [eauto | discriminate].
Qed.

(** After the keyword loop every parameter it went through is bound, has
    a default or is variadic. *)
Lemma bind_keywords_bound (params : list Param) :
  forall kwargs arguments kwargs_param arguments' kwargs' kwargs_param',
    bind_keywords params kwargs arguments kwargs_param
    = Return (arguments', kwargs', kwargs_param') ->
    Forall (fun q => dict_get (param_name q) arguments' <> None
                     \/ has_default q = true
                     \/ kind_eqb (param_kind q) VAR_POSITIONAL = true
                     \/ kind_eqb (param_kind q) VAR_KEYWORD = true) params.
Proof.
  induction params as [|param params IH];
    intros kwargs arguments kwargs_param arguments' kwargs' kwargs_param' Hbind;
    cbn [bind_keywords] in Hbind; [constructor|].
  destruct (kind_eqb (param_kind param) VAR_KEYWORD) eqn:Evk.
  { constructor; [auto | eauto]. }
  destruct (kind_eqb (param_kind param) VAR_POSITIONAL) eqn:Evp.
  { constructor; [auto | eauto]. }
  destruct (dict_get (param_name param) kwargs).
  - destruct (kind_eqb (param_kind param) POSITIONAL_ONLY); [discriminate|].
    constructor; [|eauto]. left.
    eapply bind_keywords_keeps; [exact Hbind|].
    rewrite dict_get_set_eq. discriminate.
  - destruct (has_default param) eqn:Hdef; [|discriminate].
    constructor; [auto | eauto].
Qed.

(** What binds is a key for every parameter that has no default and is
    not variadic. *)
Lemma bind_bound (sig : Signature) (args : list value) (kwargs b : dict) :
  bind sig args kwargs = Return b ->
  Forall (fun q => dict_get (param_name q) b <> None
                   \/ has_default q = true
                   \/ kind_eqb (param_kind q) VAR_POSITIONAL = true
                   \/ kind_eqb (param_kind q) VAR_KEYWORD = true)
    (parameters sig).
Proof.
  unfold bind. intros Hbind.
  destruct (bind_positional (parameters sig) args kwargs [])
    as [[arguments rest]|e] eqn:Epos; cbn [mbind result_bind] in Hbind;
    [|discriminate].
  destruct (bind_keywords rest kwargs arguments None)
    as [[[arguments' kwargs'] kwargs_param]|e] eqn:Ekw;
    cbn [mbind result_bind] in Hbind; [|discriminate].
  assert (forall k, dict_get k arguments' <> None -> dict_get k b <> None)
    as Hfinal.
  { intros k Hk. destruct kwargs' as [|[k0 v0] kwargs'].
    - injection Hbind as <-. assumption.
    - destruct kwargs_param; [|discriminate]. injection Hbind as <-.
      apply dict_get_set_keeps. assumption. }
  destruct (bind_positional_split _ _ _ _ _ _ Epos) as (pre & -> & Hpre).
  apply Forall_app. split.
  - eapply Forall_impl; [exact Hpre|]. cbn beta.
    intros q [Hq|Hq]; [|auto]. left. apply Hfinal.
    eapply bind_keywords_keeps; eassumption.
  - eapply Forall_impl; [exact (bind_keywords_bound _ _ _ _ _ _ _ Ekw)|].
    cbn beta. intros q [Hq|Hq]; [|auto]. left. apply Hfinal. assumption.
Qed.

Lemma apply_defaults_keys (params : list Param) (b : dict) :
  Forall (fun q => dict_get (param_name q) b <> None
                   \/ has_default q = true
                   \/ kind_eqb (param_kind q) VAR_POSITIONAL = true
                   \/ kind_eqb (param_kind q) VAR_KEYWORD = true) params ->
  (apply_defaults params b).*1 = param_name <$> params.
Proof.
  induction 1 as [|param params Hparam _ IH]; [reflexivity|].
  cbn [apply_defaults fmap list_fmap].
  fold (fmap param_name params).
  destruct (dict_get (param_name param) b);
    [cbn [fmap list_fmap fst]; f_equal; exact IH|].
  unfold has_default in Hparam.
  destruct (param_default param);
    [cbn [fmap list_fmap fst]; f_equal; exact IH|].
  destruct Hparam as [Hb|[Hd|[Hvp|Hvk]]]; try congruence.
  - rewrite Hvp. cbn [fmap list_fmap fst]. f_equal. exact IH.
  - rewrite Hvk.
    destruct (kind_eqb (param_kind param) VAR_POSITIONAL);
      cbn [fmap list_fmap fst]; f_equal; exact IH.
Qed.

Lemma dict_get_keys (k : string) (b : dict) :
  k ∈ b.*1 -> dict_get k b <> None.
Proof.
  induction b as [|[k0 v] b IH]; cbn [fmap list_fmap fst dict_get].
  - intros Hin. apply elem_of_nil in Hin. contradiction.
  - intros Hin. destruct (String.eqb k0 k) eqn:E; [discriminate|].
    apply String.eqb_neq in E.
    apply elem_of_cons in Hin as [->|Hin]; [contradiction | auto].
Qed.

(** X5.  When binding succeeds, what [format] passes on to the templates
    has one entry for every declared parameter, under the name of the
    parameter and in the order of the declaration, and nothing else. *)
Theorem bound_arguments_are_the_parameters (sig : Signature)
    (args : list value) (kwargs ba : dict) :
  bound_arguments sig args kwargs = Return ba ->
  ba.*1 = param_name <$> parameters sig
  /\ forall p, p ∈ parameters sig -> dict_get (param_name p) ba <> None.
Proof.
  unfold bound_arguments. intros Hba.
  destruct (bind sig args kwargs) as [b|e] eqn:Hbind;
    cbn [mbind result_bind] in Hba; [|discriminate].
  injection Hba as <-.
  pose proof (apply_defaults_keys _ _ (bind_bound _ _ _ _ Hbind)) as Hkeys.
  split; [exact Hkeys|].
  intros p Hp. apply dict_get_keys. rewrite Hkeys.
  apply list_elem_of_fmap. eauto.
Qed.

(** Without a variadic keyword parameter, a keyword that names no
    parameter cannot be bound. *)
Lemma bind_unknown_keyword (sig : Signature) (args : list value)
    (kwargs : dict) (k : string) :
  without_kind VAR_KEYWORD (parameters sig) ->
  dict_get k kwargs <> None ->
  k ∉ param_name <$> parameters sig ->
  exists why, bind sig args kwargs = Raise (TypeError why).
Proof.
  intros Hnone Hk Hnot.
  destruct (bind sig args kwargs) as [b|e] eqn:Hbind;
    [|apply bind_raises in Hbind as [why ->]; eauto].
  exfalso. unfold bind in Hbind.
  destruct (bind_positional (parameters sig) args kwargs [])
    as [[arguments rest]|e] eqn:Epos; cbn [mbind result_bind] in Hbind;
    [|discriminate].
  destruct (bind_keywords rest kwargs arguments None)
    as [[[arguments' kwargs'] kwargs_param]|e] eqn:Ekw;
    cbn [mbind result_bind] in Hbind; [|discriminate].
  destruct (bind_positional_split _ _ _ _ _ _ Epos) as (pre & Hsplit & _).
  destruct (bind_keywords_leftover _ k _ _ _ _ _ _ Ekw Hk) as [Hin|Hleft].
  - apply Hnot. rewrite Hsplit, fmap_app. apply elem_of_app. auto.
  - destruct kwargs' as [|[k0 v0] kwargs']; [apply Hleft; reflexivity|].
    destruct kwargs_param as [q|]; [|discriminate].
    apply bind_keywords_param in Ekw as [Hq|[Hq Hkind]]; [discriminate|].
    unfold without_kind in Hnone. rewrite Forall_forall in Hnone.
    rewrite (Hnone q) in Hkind; [discriminate|].
    rewrite Hsplit. apply elem_of_app. auto.
Qed.

(** Without a variadic positional parameter, the positional loop takes at
    most one argument for each positional parameter. *)
Lemma bind_positional_count (kwargs : dict) (args : list value) :
  forall params arguments out,
    without_kind VAR_POSITIONAL params ->
    bind_positional params args kwargs arguments = Return out ->
    length args <= length (List.filter positional params).
Proof.
  induction args as [|arg_val args IH]; intros params arguments out Hnone Hbind;
    [cbn [length]; lia|].
  destruct params as [|param params]; cbn [bind_positional] in Hbind;
    [discriminate|].
  apply Forall_cons in Hnone as [Hvp Hnone]. rewrite Hvp in Hbind.
  destruct (kind_eqb (param_kind param) VAR_KEYWORD
            || kind_eqb (param_kind param) KEYWORD_ONLY) eqn:Ekinds;
    [discriminate|].
  destruct (dict_mem (param_name param) kwargs
            && negb (kind_eqb (param_kind param) POSITIONAL_ONLY));
    [discriminate|].
  apply IH in Hbind; [|assumption].
  cbn [List.filter].
  assert (positional param = true) as ->.
  { unfold positional. destruct (param_kind param); cbn in *; congruence. }
  cbn [length]. lia.
Qed.

Lemma bind_too_many (sig : Signature) (args : list value) (kwargs : dict) :
  without_kind VAR_POSITIONAL (parameters sig) ->
  length (List.filter positional (parameters sig)) < length args ->
  exists why, bind sig args kwargs = Raise (TypeError why).
Proof.
  intros Hnone Hmany.
  destruct (bind sig args kwargs) as [b|e] eqn:Hbind;
    [|apply bind_raises in Hbind as [why ->]; eauto].
  exfalso. unfold bind in Hbind.
  destruct (bind_positional (parameters sig) args kwargs [])
    as [out|e] eqn:Epos; cbn [mbind result_bind] in Hbind; [|discriminate].
  apply bind_positional_count in Epos; [lia | assumption].
Qed.

(** ** Calls that fail before the backend, and what a call leaves alone *)

Section CallExtras.
Context {protocol : ObjectProtocol} {policy : RetryPolicy}.

(** X6.  Whatever exception [format] raises for the arguments of a call,
    a missing or surplus argument or a placeholder that cannot be rendered,
    the call raises the same exception and the world stays as it was: no
    backend has been asked. *)
Theorem failed_format_fails_the_call (self : loc) (args : list value)
    (kwargs : dict) (w : world) (e : exn) :
  (format self args kwargs w).1 = Raise e ->
  call self args kwargs w = (Raise e, w).
Proof.
  intros Hformat.
  destruct (heap w !! self) as [[items|fn|this]|] eqn:Hself.
  1,2,4: unfold format, call, read_prompt, mbind, M_bind in Hformat |- *;
    rewrite Hself in Hformat |- *; cbn [fst] in Hformat;
    injection Hformat as <-; reflexivity.
  rewrite (format_ok _ _ _ _ _ Hself) in Hformat. cbn [fst] in Hformat.
  rewrite (call_run _ _ _ _ _ Hself). unfold run_call.
  rewrite Hformat, M_bind_lift. reflexivity.
Qed.

(** X7.  When the signature has no variadic keyword parameter, a call
    with a keyword that names none of the parameters raises a [TypeError]
    and asks no backend. *)
Theorem unknown_keyword_raises_before_backend (self : loc)
    (this : BaseChatPromptFunction) (args : list value) (kwargs : dict)
    (k : string) (w : world) :
  heap w !! self = Some (Prompt this) ->
  without_kind VAR_KEYWORD (parameters (_signature this)) ->
  dict_get k kwargs <> None ->
  k ∉ param_name <$> parameters (_signature this) ->
  exists why, call self args kwargs w = (Raise (TypeError why), w).
Proof.
  intros Hself Hnone Hk Hnot.
  destruct (bind_unknown_keyword _ args _ _ Hnone Hk Hnot) as [why Hbind].
  exists why. rewrite (call_run _ _ _ _ _ Hself). unfold run_call, rendered.
  rewrite Hbind, M_bind_lift. reflexivity.
Qed.

(** X8.  When the signature has no variadic positional parameter, a call
    with more positional arguments than there are parameters that take one
    raises a [TypeError] and asks no backend. *)
Theorem too_many_positional_raise_before_backend (self : loc)
    (this : BaseChatPromptFunction) (args : list value) (kwargs : dict)
    (w : world) :
  heap w !! self = Some (Prompt this) ->
  without_kind VAR_POSITIONAL (parameters (_signature this)) ->
  length (List.filter positional (parameters (_signature this))) < length args ->
  exists why, call self args kwargs w = (Raise (TypeError why), w).
Proof.
  intros Hself Hnone Hmany.
  destruct (bind_too_many _ _ kwargs Hnone Hmany) as [why Hbind].
  exists why. rewrite (call_run _ _ _ _ _ Hself). unfold run_call, rendered.
  rewrite Hbind, M_bind_lift. reflexivity.
Qed.

(** X9.  A call, whatever comes of it, changes no object on the heap and
    not the default chat model, and it takes nothing from the record of
    backend calls: all it may do is add calls at the end. *)
Theorem call_only_adds_backend_calls (self : loc) (args : list value)
    (kwargs : dict) (w : world) :
  heap (call self args kwargs w).2 = heap w
  /\ default_chat_model (call self args kwargs w).2 = default_chat_model w
  /\ exists new, calls (call self args kwargs w).2 = calls w ++ new.
Proof.
  destruct (call_only_calls self args kwargs w) as (Hheap & Hdefault & new & Hcalls & _).
  eauto.
Qed.

End CallExtras.

(** ** Construction and decoration *)

Lemma validate_parameters_raises (params : list Param) :
  forall top_kind kind_defaults seen e,
    validate_parameters top_kind kind_defaults seen params = Raise e ->
    exists msg, e = ValueError msg.
Proof.
  induction params as [|param params IH]; intros top_kind kind_defaults seen e Hvalid;
    cbn [validate_parameters] in Hvalid; [discriminate|].
  cbv zeta in Hvalid.
  repeat match type of Hvalid with
         | (if ?c then Raise _ else _) = _ =>
             destruct c; [injection Hvalid as <-; eauto|]
         end.
  eapply IH. exact Hvalid.
Qed.

Section ConstructionExtras.
Context {protocol : ObjectProtocol} {policy : RetryPolicy}.

(** X11.  A parameter list in which a name occurs twice is refused: the
    constructor raises a [ValueError] and has put nothing on the heap. *)
Theorem duplicate_parameter_names_are_refused (cls : prompt_class)
    (name : string) (params : list Param) (return_type : type_descriptor)
    (messages : list Message) (functions stop : option loc) (max_retries : Z)
    (model : option ChatModel) (w : world) :
  ~ NoDup (param_name <$> params) ->
  exists msg,
    __init__ cls name params return_type messages functions stop max_retries
      model w = (Raise (ValueError msg), w).
Proof.
  intros Hdup. unfold __init__. rewrite M_bind_lift.
  destruct (Signature_init params return_type) as [sig|e] eqn:Hsig.
  - exfalso. apply Hdup.
    apply Signature_init_NoDup in Hsig as [<- Hnodup]. exact Hnodup.
  - unfold Signature_init in Hsig.
    destruct (validate_parameters POSITIONAL_ONLY false [] params)
      as [[]|e'] eqn:Hvalid; cbn [mbind result_bind] in Hsig; [discriminate|].
    injection Hsig as <-.
    apply validate_parameters_raises in Hvalid as [msg ->]. eauto.
Qed.

(** The constructor with a list of side-callables given: a list with items
    is kept by reference, an empty one is replaced by a new empty list. *)
Lemma init_given (cls : prompt_class) (name : string) (params : list Param)
    (return_type : type_descriptor) (messages : list Message) (l : loc)
    (stop : option loc) (max_retries : Z) (model : option ChatModel)
    (sig : Signature) (given : list value) (w : world) :
  Signature_init params return_type = Return sig ->
  heap w !! l = Some (List given) ->
  exists self w' fs rts,
    __init__ cls name params return_type messages (Some l) stop max_retries
      model w = (Return self, w')
    /\ grows w w'
    /\ heap w !! self = None /\ heap w !! rts = None
    /\ heap w' !! self
       = Some (Prompt {| class_of := cls; _name := name; _signature := sig;
                         _messages := messages; _functions := fs;
                         _stop := stop; _max_retries := max_retries;
                         _model := model; _return_types := rts;
                         wrapper := None |})
    /\ heap w' !! rts = Some (List (VType <$> split_union_type return_type))
    /\ match given with
       | [] => heap w !! fs = None /\ heap w' !! fs = Some (List [])
       | _ => fs = l
       end.
Proof.
  intros Hsig Hl. unfold __init__. rewrite M_bind_lift, Hsig.
  assert (exists fs w1,
             functions_or_empty (Some l) w = (Return fs, w1)
             /\ grows w w1
             /\ match given with
                | [] => heap w !! fs = None /\ heap w1 !! fs = Some (List [])
                | _ => fs = l
                end) as (fs & w1 & Hfs & Hgrows1 & Hgiven).
  { cbn [functions_or_empty]. rewrite M_bind_run, (read_list_ok _ _ _ Hl).
    destruct given as [|item given].
    - destruct (alloc_grows (List []) w) as (fs & w1 & Halloc & Hfresh & Hat & Hgrows).
      exists fs, w1. auto.
    - exists l, w. split; [reflexivity|]. split; [apply grows_refl | reflexivity]. }
  rewrite (M_bind_Return _ _ _ _ _ Hfs).
  destruct (alloc_grows (List (VType <$> split_union_type return_type)) w1)
    as (rts & w2 & Hrts & Hfresh2 & Hat2 & Hgrows2).
  rewrite (M_bind_Return _ _ _ _ _ Hrts).
  match goal with
  | |- context [alloc ?o w2] =>
      destruct (alloc_grows o w2) as (self & w3 & Hself & Hfresh3 & Hat3 & Hgrows3)
  end.
  exists self, w3, fs, rts.
  split; [exact Hself|].
  split; [eapply grows_trans; [exact Hgrows1|]; eapply grows_trans; eassumption|].
  assert (forall x, heap w1 !! x = None -> heap w !! x = None) as Hback1.
  { intros x Hx. destruct (heap w !! x) as [o|] eqn:Hwx; [|reflexivity].
    apply Hgrows1 in Hwx. congruence. }
  assert (forall x, heap w2 !! x = None -> heap w1 !! x = None) as Hback2.
  { intros x Hx. destruct (heap w1 !! x) as [o|] eqn:Hwx; [|reflexivity].
    apply Hgrows2 in Hwx. congruence. }
  split; [apply Hback1, Hback2; assumption|].
  split; [apply Hback1; assumption|].
  split; [exact Hat3|].
  split; [apply Hgrows3; exact Hat2|].
  destruct given as [|item given]; [|exact Hgiven].
  destruct Hgiven as [Hnew Hat]. split; [exact Hnew|].
  apply Hgrows3, Hgrows2. exact Hat.
Qed.

(** X12.  The constructor keeps a list of side-callables that has items
    by reference and replaces an empty one by a list of its own.  So when
    the list that was passed is changed afterwards, the backend calls of
    later invocations carry the changed list if it had items when it was
    passed, and no side-callables if it was empty. *)
Theorem given_functions_are_kept_by_reference (cls : prompt_class)
    (name : string) (params : list Param) (return_type : type_descriptor)
    (messages : list Message) (l : loc) (stop : option loc) (max_retries : Z)
    (model : option ChatModel) (sig : Signature) (given : list value)
    (change : list value -> list value)
    (invocations : list (list value * dict)) (w : world) :
  Signature_init params return_type = Return sig ->
  heap w !! l = Some (List given) ->
  exists self w',
    __init__ cls name params return_type messages (Some l) stop max_retries
      model w = (Return self, w')
    /\ let w'' := (list_mutate l change w').2 in
       heap w'' !! l = Some (List (change given))
       /\ only_calls
            (fun r => req_functions (call_request r)
                      = match given with [] => [] | _ => change given end)
            w'' (call_all self invocations w'').
Proof.
  intros Hsig Hl.
  destruct (init_given cls name params return_type messages l stop max_retries
              model sig given w Hsig Hl)
    as (self & w' & fs & rts & Hinit & Hgrows & Hself0 & Hrts0 & Hself & Hrts
        & Hgiven).
  exists self, w'. split; [exact Hinit|].
  destruct Hgrows as (Hkeep & _).
  pose proof (Hkeep _ _ Hl) as Hl'.
  unfold list_mutate. rewrite M_bind_run, (read_list_ok _ _ _ Hl').
  unfold store. cbn [snd]. cbv zeta.
  assert (self <> l) as Hne_self by congruence.
  assert (rts <> l) as Hne_rts by congruence.
  split; [cbn [set_heap heap]; apply lookup_insert_eq|].
  match goal with
  | |- only_calls _ ?u _ =>
      assert (heap u !! self = heap w' !! self) as Hself'
        by (cbn [set_heap heap]; apply lookup_insert_ne; congruence);
      assert (heap u !! rts = heap w' !! rts) as Hrts'
        by (cbn [set_heap heap]; apply lookup_insert_ne; congruence)
  end.
  rewrite Hself in Hself'. rewrite Hrts in Hrts'.
  destruct given as [|item given].
  - destruct Hgiven as [Hfs0 Hfs].
    assert (fs <> l) as Hne_fs by congruence.
    eapply only_calls_weaken;
      [|eapply call_all_configured; [exact Hself' | | exact Hrts']].
    + intros r [Hr _]. exact Hr.
    + cbn [_functions set_heap heap]. rewrite lookup_insert_ne by congruence.
      exact Hfs.
  - subst fs.
    eapply only_calls_weaken;
      [|eapply call_all_configured; [exact Hself' | | exact Hrts']].
    + intros r [Hr _]. exact Hr.
    + cbn [_functions set_heap heap]. apply lookup_insert_eq.
Qed.


End ConstructionExtras.

(** ** The stop strings *)

Section StopExtras.
Context {protocol : ObjectProtocol} {policy : RetryPolicy}.

Lemma read_optional_list_items (stop : option loc) (w w' : world)
    (s : option (list value)) :
  read_optional_list stop w = (Return s, w') -> s = stop_items stop w.
Proof.
  destruct stop as [l|]; cbn [read_optional_list stop_items].
  - unfold mbind, M_bind, read_list.
    destruct (heap w !! l) as [[items| |]|]; intros Hread;
      cbn in Hread; try discriminate.
    injection Hread as <- _. reflexivity.
  - intros Hread. cbn in Hread. injection Hread as <- _. reflexivity.
Qed.

Lemma call_stop (self : loc) (this : BaseChatPromptFunction)
    (args : list value) (kwargs : dict) (w : world) :
  heap w !! self = Some (Prompt this) ->
  only_calls (fun r => req_stop (call_request r) = stop_items (_stop this) w)
    w (call self args kwargs w).2.
Proof.
  intros Hself. rewrite (call_run _ _ _ _ _ Hself). unfold run_call.
  rewrite M_bind_lift.
  destruct (rendered this args kwargs) as [messages|e];
    [|apply only_calls_refl].
  rewrite M_bind_run. unfold read_list at 1.
  destruct (heap w !! _functions this) as [[fs| |]|];
    try apply only_calls_refl.
  rewrite M_bind_run. unfold read_list at 1.
  destruct (heap w !! _return_types this) as [[rts| |]|];
    try apply only_calls_refl.
  rewrite M_bind_run.
  pose proof (read_optional_list_world (_stop this) w) as Hworld.
  pose proof (read_optional_list_items (_stop this) w) as Hitems.
  destruct (read_optional_list (_stop this) w) as [[stop|e] w0];
    cbn [snd] in Hworld; subst w0; [|apply only_calls_refl].
  specialize (Hitems w stop eq_refl).
  rewrite M_bind_run.
  match goal with
  | |- context [complete_with ?s ?m ?req w] =>
      pose proof (complete_with_only_calls s m req w) as Hcalls;
      destruct (complete_with s m req w) as [[message|e] w']
  end; cbn [snd req_functions req_output_types req_stop] in Hcalls |- *;
    (eapply only_calls_weaken; [|exact Hcalls]);
    intros r (_ & _ & Hr); congruence.
Qed.

Lemma call_all_stop (self : loc) (this : BaseChatPromptFunction)
    (invocations : list (list value * dict)) :
  forall w,
    heap w !! self = Some (Prompt this) ->
    only_calls (fun r => req_stop (call_request r) = stop_items (_stop this) w)
      w (call_all self invocations w).
Proof.
  induction invocations as [|[args kwargs] rest IH]; intros w Hself;
    cbn [call_all]; [apply only_calls_refl|].
  pose proof (call_stop self this args kwargs w Hself) as Hstep.
  eapply only_calls_trans; [exact Hstep|].
  destruct Hstep as (Hheap & _).
  assert (stop_items (_stop this) (call self args kwargs w).2
          = stop_items (_stop this) w) as Hsame
    by (unfold stop_items; rewrite Hheap; reflexivity).
  rewrite <- Hsame. apply IH. rewrite Hheap. exact Hself.
Qed.

(** X14.  The constructor keeps the list of stop strings it is given by
    reference, whatever is in it.  When the list that was passed is changed
    afterwards, every backend call of the invocations that follow carries
    the changed stop strings. *)
Theorem given_stop_is_kept_by_reference (cls : prompt_class) (name : string)
    (params : list Param) (return_type : type_descriptor)
    (messages : list Message) (functions : option loc) (l : loc)
    (max_retries : Z) (model : option ChatModel) (sig : Signature)
    (given : list value) (change : list value -> list value)
    (invocations : list (list value * dict)) (w : world) :
  Signature_init params return_type = Return sig ->
  list_or_none functions w ->
  heap w !! l = Some (List given) ->
  exists self w',
    __init__ cls name params return_type messages functions (Some l)
      max_retries model w = (Return self, w')
    /\ let w'' := (list_mutate l change w').2 in
       only_calls
         (fun r => req_stop (call_request r) = Some (change given))
         w'' (call_all self invocations w'').
Proof.
  intros Hsig Hfunctions Hl.
  destruct (init_ok cls name params return_type messages functions (Some l)
              max_retries model sig w Hsig Hfunctions)
    as (self & w' & fs & rts & items & Hinit & Hgrows & Hfresh & Hself & _).
  exists self, w'. split; [exact Hinit|].
  destruct Hgrows as (Hkeep & _).
  pose proof (Hkeep _ _ Hl) as Hl'.
  unfold list_mutate. rewrite M_bind_run, (read_list_ok _ _ _ Hl').
  unfold store. cbn [snd]. cbv zeta.
  assert (self <> l) as Hne by congruence.
  match goal with
  | |- only_calls _ ?u _ =>
      assert (heap u !! self = heap w' !! self) as Hself'
        by (cbn [set_heap heap]; apply lookup_insert_ne; congruence);
      assert (heap u !! l = Some (List (change given))) as Hstop
        by (cbn [set_heap heap]; apply lookup_insert_eq)
  end.
  rewrite Hself in Hself'.
  eapply only_calls_weaken; [|eapply call_all_stop; exact Hself'].
  intros r Hr. rewrite Hr. cbn [_stop stop_items]. rewrite Hstop. reflexivity.
Qed.

End StopExtras.

(** ** A parameter called self *)

Section SelfExtras.
Context {protocol : ObjectProtocol} {policy : RetryPolicy}.



End SelfExtras.

(** ** The further properties on the sample objects *)

Lemma bound_arguments_are_the_parameters_witness :
  [("a", VInt 1); ("b", VInt 2)].*1 = param_name <$> f_parameters
  /\ forall p, p ∈ f_parameters ->
       dict_get (param_name p) [("a", VInt 1); ("b", VInt 2)] <> None.
Proof.
  exact (bound_arguments_are_the_parameters
           {| parameters := f_parameters; return_annotation := int |}
           [VInt 1] [] [("a", VInt 1); ("b", VInt 2)] eq_refl).
Defined.

Lemma failed_format_fails_the_call_witness :
  exists e,
    (format (protocol := plain_objects) 3 [] []
       (sample_world plain_f counting_backend)).1 = Raise e
    /\ call (protocol := plain_objects) (policy := echo_failure) 3 [] []
         (sample_world plain_f counting_backend)
       = (Raise e, sample_world plain_f counting_backend).
Proof.
  eexists. split; [reflexivity|].
  apply (failed_format_fails_the_call (protocol := plain_objects)
           (policy := echo_failure) 3 [] []
           (sample_world plain_f counting_backend)).
  reflexivity.
Defined.

Lemma unknown_keyword_raises_before_backend_witness :
  exists why,
    call (protocol := plain_objects) (policy := echo_failure) 3 [VInt 1]
      [("c", VInt 3)] (sample_world plain_f counting_backend)
    = (Raise (TypeError why), sample_world plain_f counting_backend).
Proof.
  apply (unknown_keyword_raises_before_backend (protocol := plain_objects)
           (policy := echo_failure) 3 plain_f [VInt 1] [("c", VInt 3)] "c").
  - reflexivity.
  - repeat constructor.
  - discriminate.
  - intros Hin. cbn in Hin.
    apply elem_of_cons in Hin as [Heq|Hin]; [discriminate|].
    apply elem_of_cons in Hin as [Heq|Hin]; [discriminate|].
    apply elem_of_nil in Hin. exact Hin.
Defined.

Lemma too_many_positional_raise_before_backend_witness :
  exists why,
    call (protocol := plain_objects) (policy := echo_failure) 3
      [VInt 1; VInt 2; VInt 3] [] (sample_world plain_f counting_backend)
    = (Raise (TypeError why), sample_world plain_f counting_backend).
Proof.
  apply (too_many_positional_raise_before_backend (protocol := plain_objects)
           (policy := echo_failure) 3 plain_f [VInt 1; VInt 2; VInt 3] []).
  - reflexivity.
  - repeat constructor.
  - cbn. lia.
Defined.

Lemma duplicate_parameter_names_are_refused_witness :
  exists msg,
    __init__ ChatPromptFunction "f" doubled_parameters int sample_messages
      None None 0 None (declared_world counting_backend)
    = (Raise (ValueError msg), declared_world counting_backend).
Proof.
  apply (duplicate_parameter_names_are_refused ChatPromptFunction "f"
           doubled_parameters int sample_messages None None 0 None
           (declared_world counting_backend)).
  cbn. intros Hnodup. apply NoDup_cons in Hnodup as [Hnot _].
  apply Hnot. apply elem_of_cons. left. reflexivity.
Defined.

Lemma given_functions_are_kept_by_reference_witness :
  exists self w',
    __init__ ChatPromptFunction "f" f_parameters int sample_messages
      (Some 1) None 0 None (tooled_world counting_backend) = (Return self, w')
    /\ let w'' := (list_mutate 1 (cons (VCallable "other")) w').2 in
       heap w'' !! 1 = Some (List [VCallable "other"; VCallable "tool"])
       /\ only_calls
            (fun r => req_functions (call_request r)
                      = [VCallable "other"; VCallable "tool"])
            w''
            (call_all (protocol := plain_objects) (policy := echo_failure)
               self [([VInt 1], [])] w'').
Proof.
  exact (given_functions_are_kept_by_reference (protocol := plain_objects)
           (policy := echo_failure) ChatPromptFunction "f" f_parameters int
           sample_messages 1 None 0 None
           {| parameters := f_parameters; return_annotation := int |}
           [VCallable "tool"] (cons (VCallable "other")) [([VInt 1], [])]
           (tooled_world counting_backend) eq_refl eq_refl).
Defined.


Lemma given_stop_is_kept_by_reference_witness :
  exists self w',
    __init__ ChatPromptFunction "f" f_parameters int sample_messages
      None (Some 2) 0 None (tooled_world counting_backend) = (Return self, w')
    /\ let w'' := (list_mutate 2 (cons (VStr "STOP")) w').2 in
       only_calls
         (fun r => req_stop (call_request r) = Some [VStr "STOP"; VStr "END"])
         w''
         (call_all (protocol := plain_objects) (policy := echo_failure)
            self [([VInt 1], [])] w'').
Proof.
  exact (given_stop_is_kept_by_reference (protocol := plain_objects)
           (policy := echo_failure) ChatPromptFunction "f" f_parameters int
           sample_messages None 2 0 None
           {| parameters := f_parameters; return_annotation := int |}
           [VStr "END"] (cons (VStr "STOP")) [([VInt 1], [])]
           (tooled_world counting_backend) eq_refl I eq_refl).
Defined.

